(** * Loss functions of deepcell_spots.dotnet_losses

    A shallow embedding of [smooth_l1] and of the three methods of
    [DotNetLosses] (src/deepcell_spots/dotnet_losses.py), followed by the
    properties proved about them.

    Numbers.  Every floating-point quantity of the source is an exact
    rational ([Q], compared with [==]); rounding, overflow and underflow
    are outside the model.  The two ways in which a division of the
    source can go wrong are kept apart from ordinary values:
    - a division between Python scalars by zero raises
      [ZeroDivisionError];
    - a division (or a mean) between tensors by zero yields NaN or an
      infinity, recorded as [NonFinite]: a scalar that is not a number,
      or a tensor with an element that is not one.  An empty tensor has
      no such element, whatever is added to it.

    Tensors.  A rank-1 tensor is the list of its elements.  A tensor of
    rank 3 or 4 is its shape together with the function from indices to
    elements; only the elements inside the shape are ever read. *)

From Stdlib Require Import List Bool Arith Lia ZArith QArith Qabs Lqa Qfield
  Permutation Morphisms Setoid.
Import ListNotations.

Local Open Scope Q_scope.

(** ** Outcomes of a computation *)

Inductive error : Type :=
| ZeroDivisionError      (* Python: float division by zero *)
| InvalidArgumentError   (* TensorFlow: incompatible shapes, index out of bounds *)
| NonFinite.             (* the value computed is NaN or an infinity *)

Inductive res (A : Type) : Type :=
| Ok (a : A)
| Err (e : error).
Arguments Ok {A} a.
Arguments Err {A} e.

Definition bind {A B : Type} (m : res A) (k : A -> res B) : res B :=
  match m with
  | Ok a => k a
  | Err e => Err e
  end.

Notation "x <- m ;; k" := (bind m (fun x => k))
  (at level 61, m at next level, right associativity).

Fixpoint mapM {A B : Type} (f : A -> res B) (l : list A) : res (list B) :=
  match l with
  | [] => Ok []
  | a :: l' => b <- f a ;; bs <- mapM f l' ;; Ok (b :: bs)
  end.

(** Two outcomes agree: the same error, or equal rationals. *)
Definition req (x y : res Q) : Prop :=
  match x, y with
  | Ok a, Ok b => a == b
  | Err e, Err e' => e = e'
  | _, _ => False
  end.

(** The same for rank-1 tensors, elementwise. *)
Definition reql (x y : res (list Q)) : Prop :=
  match x, y with
  | Ok a, Ok b => Forall2 Qeq a b
  | Err e, Err e' => e = e'
  | _, _ => False
  end.

(** ** Scalar arithmetic *)

Definition Qlt_bool (x y : Q) : bool := negb (Qle_bool y x).

Definition Q_of_nat (n : nat) : Q := inject_Z (Z.of_nat n).

(** Python [a / b] on floats. *)
Definition pydiv (a b : Q) : res Q :=
  if Qeq_bool b 0 then Err ZeroDivisionError else Ok (a / b).

(** Tensor [a / b] on scalar tensors. *)
Definition fdiv (a b : Q) : res Q :=
  if Qeq_bool b 0 then Err NonFinite else Ok (a / b).

(** ** Rank-1 tensors *)

Definition K_sum (l : list Q) : Q := fold_right Qplus 0 l.

(** [K.mean] over all the elements: NaN on an empty tensor. *)
Definition K_mean (l : list Q) : res Q :=
  fdiv (K_sum l) (Q_of_nat (length l)).

Fixpoint map2 {A B C : Type} (f : A -> B -> C) (a : list A) (b : list B)
  : list C :=
  match a, b with
  | x :: a', y :: b' => f x y :: map2 f a' b'
  | _, _ => []
  end.

(** A binary elementwise operator on rank-1 tensors, with TensorFlow's
    broadcasting of a one-element operand. *)
Definition broadcast2 (f : Q -> Q -> Q) (a b : list Q) : res (list Q) :=
  if Nat.eqb (length a) (length b) then Ok (map2 f a b)
  else if Nat.eqb (length b) 1 then Ok (map (fun x => f x (hd 0 b)) a)
  else if Nat.eqb (length a) 1 then Ok (map (fun y => f (hd 0 a) y) b)
  else Err InvalidArgumentError.

(** ** smooth_l1 *)

(** The two branches handed to [tf.where], as functions of
    [sigma_squared] and of one element of [regression_diff]. *)
Definition quadratic_branch (sigma_squared r : Q) : Q :=
  (1 # 2) * sigma_squared * r ^ 2.

Definition linear_branch (sigma_squared r : Q) : Q :=
  r - (1 # 2) / sigma_squared.

(** One element of [tf.where(K.less(diff, 1.0 / s), ..., ...)]. *)
Definition where_branch (sigma_squared r : Q) : Q :=
  if Qlt_bool r (1 / sigma_squared)
  then quadratic_branch sigma_squared r
  else linear_branch sigma_squared r.

(** One element of the result, from the two corresponding inputs. *)
Definition smooth_l1_pt (sigma : Q) (t p : Q) : Q :=
  where_branch (sigma ^ 2) (Qabs (t - p)).

(** The function works element by element, so its arguments are given by
    the lists of their elements; [regression_loss] calls it on the rank-1
    results of its gathers.  [sigma] is a Python number, hence the Python
    divisions. *)
Definition smooth_l1 (y_true y_pred : list Q) (sigma : Q) : res (list Q) :=
  let sigma_squared := sigma ^ 2 in
  diff <- broadcast2 Qminus y_true y_pred ;;
  let regression_diff := map Qabs diff in
  threshold <- pydiv 1 sigma_squared ;;
  half <- pydiv (1 # 2) sigma_squared ;;
  let regression_loss :=
    map (fun r => if Qlt_bool r threshold
                  then (1 # 2) * sigma_squared * r ^ 2
                  else r - half) regression_diff in
  Ok regression_loss.

(** ** The configuration object *)

Record DotNetLosses : Type := mkDotNetLosses {
  gamma : Q;
  sigma : Q;
  n_classes : nat;
  focal : bool;
  d_pixels : Q;
  mu : Q;
  beta : Q
}.

(** The defaults of [__init__]. *)
Definition default_losses : DotNetLosses :=
  mkDotNetLosses 2 3 2 false 1 0 0.

(** ** Tensors of rank 3 and 4 *)

Record tensor3 (A : Type) : Type := mkTensor3 {
  shape3 : nat * nat * nat;              (* (batch, Ly, Lx) *)
  at3 : nat -> nat -> nat -> A
}.
Arguments mkTensor3 {A} shape3 at3.
Arguments shape3 {A} t.
Arguments at3 {A} t b y x.

Record tensor4 : Type := mkTensor4 {
  shape4 : nat * nat * nat * nat;        (* (batch, Ly, Lx, channels) *)
  at4 : nat -> nat -> nat -> nat -> Q
}.

Definition index3 : Type := (nat * nat * nat)%type.

Definition get3 {A : Type} (t : tensor3 A) (i : index3) : A :=
  let '(b, y, x) := i in at3 t b y x.

Definition in_range (s : nat * nat * nat) (i : index3) : bool :=
  let '(B, H, W) := s in
  let '(b, y, x) := i in
  (b <? B)%nat && (y <? H)%nat && (x <? W)%nat.

Definition shape3_eqb (s s' : nat * nat * nat) : bool :=
  let '(B, H, W) := s in
  let '(B', H', W') := s' in
  Nat.eqb B B' && Nat.eqb H H' && Nat.eqb W W'.

(** The indices of a shape, in row-major order. *)
Definition all_indices (s : nat * nat * nat) : list index3 :=
  let '(B, H, W) := s in
  flat_map (fun b =>
    flat_map (fun y => map (fun x => (b, y, x)) (seq 0 W)) (seq 0 H))
    (seq 0 B).

(** [t[..., k]] *)
Definition channel (k : nat) (t : tensor4) : res (tensor3 Q) :=
  let '(B, H, W, C) := shape4 t in
  if (k <? C)%nat
  then Ok (mkTensor3 (B, H, W) (fun b y x => at4 t b y x k))
  else Err InvalidArgumentError.

(** [t[:, y0:Ly-y1, x0:Lx-x1, k]] *)
Definition strided_slice (y0 y1 x0 x1 k : nat) (t : tensor4)
  : res (tensor3 Q) :=
  let '(B, H, W, C) := shape4 t in
  if (k <? C)%nat
  then Ok (mkTensor3 (B, H - y0 - y1, W - x0 - x1)%nat
             (fun b y x => at4 t b (y + y0)%nat (x + x0)%nat k))
  else Err InvalidArgumentError.

Definition tmap {A B : Type} (f : A -> B) (t : tensor3 A) : tensor3 B :=
  mkTensor3 (shape3 t) (fun b y x => f (at3 t b y x)).

(** A binary elementwise operator on two tensors of one shape.  The
    methods below only ever combine two tensors cut from the same one, so
    broadcasting between different shapes of rank 3 is left out. *)
Definition tzip {A B C : Type} (f : A -> B -> C) (s : tensor3 A)
  (t : tensor3 B) : res (tensor3 C) :=
  if shape3_eqb (shape3 s) (shape3 t)
  then Ok (mkTensor3 (shape3 s) (fun b y x => f (at3 s b y x) (at3 t b y x)))
  else Err InvalidArgumentError.

(** [K.less_equal(c, t)] and [K.less(t, c)] against a Python scalar. *)
Definition K_less_equal (c : Q) (t : tensor3 Q) : tensor3 bool :=
  tmap (fun v => Qle_bool c v) t.

Definition K_less (t : tensor3 Q) (c : Q) : tensor3 bool :=
  tmap (fun v => Qlt_bool v c) t.

Definition logical_and (s t : tensor3 bool) : res (tensor3 bool) :=
  tzip andb s t.

(** [tf.where(mask)]: the indices of the true entries, row-major. *)
Definition tf_where (mask : tensor3 bool) : list index3 :=
  filter (get3 mask) (all_indices (shape3 mask)).

(** [tf.gather_nd(t, indices)]; an index outside [t] is an error. *)
Definition gather_nd (t : tensor3 Q) (indices : list index3) : res (list Q) :=
  mapM (fun i => if in_range (shape3 t) i then Ok (get3 t i)
                 else Err InvalidArgumentError) indices.

(** [K.sum(t)] over every axis. *)
Definition K_sum3 (t : tensor3 Q) : Q :=
  K_sum (map (get3 t) (all_indices (shape3 t))).

(** [K.mean(t, axis=[1, 2])]: one mean per image of the batch. *)
Definition K_mean_12 (t : tensor3 Q) : res (list Q) :=
  let '(B, H, W) := shape3 t in
  mapM (fun b =>
    fdiv (K_sum (flat_map (fun y => map (fun x => at3 t b y x) (seq 0 W))
                          (seq 0 H)))
         (Q_of_nat (H * W)))
    (seq 0 B).

(** [K.spatial_2d_padding(t, padding=((top, bottom), (left, right)))],
    channels last: zeros around every image. *)
Definition spatial_2d_padding (t : tensor4)
  (padding : (nat * nat) * (nat * nat)) : tensor4 :=
  let '((top_pad, bottom_pad), (left_pad, right_pad)) := padding in
  let '(B, H, W, C) := shape4 t in
  mkTensor4 (B, top_pad + H + bottom_pad, left_pad + W + right_pad, C)%nat
    (fun b y x c =>
       if (y <? top_pad)%nat || (top_pad + H <=? y)%nat
          || (x <? left_pad)%nat || (left_pad + W <=? x)%nat
       then 0
       else at4 t b (y - top_pad)%nat (x - left_pad)%nat c).

(** ** DotNetLosses.regression_loss *)

(** The second half of the method, from the gathers on, as a function of
    the index list they share. *)
Definition regression_loss_on (sigma : Q)
  (y_offset_true x_offset_true y_offset_pred x_offset_pred : tensor3 Q)
  (near_pt_indices : list index3) : res Q :=
  y_offset_true_cp <- gather_nd y_offset_true near_pt_indices ;;
  x_offset_true_cp <- gather_nd x_offset_true near_pt_indices ;;
  y_offset_pred_cp <- gather_nd y_offset_pred near_pt_indices ;;
  x_offset_pred_cp <- gather_nd x_offset_pred near_pt_indices ;;
  pixelwise_loss_y <- smooth_l1 y_offset_true_cp y_offset_pred_cp sigma ;;
  pixelwise_loss_x <- smooth_l1 x_offset_true_cp x_offset_pred_cp sigma ;;
  let normalizer := Nat.max 1 (length near_pt_indices) in
  let normalizer := Q_of_nat normalizer in
  let loss := pixelwise_loss_y ++ pixelwise_loss_x in
  fdiv (K_sum loss) normalizer.

(** The method.  [reorder] stands for the order in which the
    index-collection step lists the selected pixels; the method itself
    uses the order of [tf.where]. *)
Definition regression_loss_with (reorder : list index3 -> list index3)
  (self : DotNetLosses) (y_true y_pred : tensor4) : res Q :=
  let d_pixels := d_pixels self in
  let sigma := sigma self in
  y_offset_true <- channel 0 y_true ;;
  x_offset_true <- channel 1 y_true ;;
  y_offset_pred <- channel 0 y_pred ;;
  x_offset_pred <- channel 1 y_pred ;;
  let d := (1 # 2) + d_pixels in
  near_pt_y <- logical_and (K_less_equal (- d) y_offset_true)
                           (K_less y_offset_true d) ;;
  near_pt_x <- logical_and (K_less_equal (- d) x_offset_true)
                           (K_less x_offset_true d) ;;
  near_pt <- logical_and near_pt_y near_pt_x ;;
  let near_pt_indices := reorder (tf_where near_pt) in
  regression_loss_on sigma y_offset_true x_offset_true
    y_offset_pred x_offset_pred near_pt_indices.

Definition regression_loss (self : DotNetLosses) (y_true y_pred : tensor4)
  : res Q :=
  regression_loss_with (fun indices => indices) self y_true y_pred.

(** ** The classification losses *)

(** The two functions taken from [deepcell.losses].  They belong to
    another package: each is an arbitrary function of its arguments that
    returns a tensor (listed elementwise) or fails. *)
Record deepcell_losses : Type := mkDeepcellLosses {
  weighted_focal_loss :
    tensor4 -> tensor4 -> Q (* gamma *) -> nat (* n_classes *) -> res (list Q);
  weighted_categorical_crossentropy :
    tensor4 -> tensor4 -> nat (* n_classes *) -> res (list Q)
}.

(** A scalar is the tensor of one element. *)
Definition classification_loss (losses : deepcell_losses)
  (self : DotNetLosses) (y_true y_pred : tensor4) : res (list Q) :=
  let focal := focal self in
  let gamma := gamma self in
  let n_classes := n_classes self in
  if focal
  then weighted_focal_loss losses y_true y_pred gamma n_classes
  else
    loss <- weighted_categorical_crossentropy losses y_true y_pred n_classes ;;
    loss <- K_mean loss ;;
    Ok [loss].

(** The count-mismatch term, [N_loss] in the source. *)
Definition N_loss (y_true y_pred : tensor4) : res Q :=
  spot_pred <- channel 1 y_pred ;;
  mean_pred <- K_mean_12 spot_pred ;;
  spot_true <- channel 1 y_true ;;
  mean_true <- K_mean_12 spot_true ;;
  N_diff <- broadcast2 Qminus mean_pred mean_true ;;
  K_mean (map (fun v => v * v) N_diff).

(** The interaction term, [inter_loss] in the source after its division
    by [normalizer]. *)
Definition inter_loss (y_pred : tensor4) : res Q :=
  let y_pred_padded := spatial_2d_padding y_pred ((1, 1), (1, 1))%nat in
  lower <- strided_slice 1 0 0 0 1 y_pred_padded ;;
  upper <- strided_slice 0 1 0 0 1 y_pred_padded ;;
  vertical <- tzip Qmult lower upper ;;
  right_ <- strided_slice 0 0 1 0 1 y_pred_padded ;;
  left_ <- strided_slice 0 0 0 1 1 y_pred_padded ;;
  horizontal <- tzip Qmult right_ left_ ;;
  let inter_loss := K_sum3 vertical + K_sum3 horizontal in
  let '(B, H, W, _) := shape4 y_pred in
  let normalizer := Q_of_nat (B * H * W) in
  fdiv inter_loss normalizer.

(** A tensor as a value: one that is not finite ([None]) is a value like
    any other and raises nothing; an exception stays one. *)
Definition scalar_value (r : res Q) : res (option Q) :=
  match r with
  | Ok v => Ok (Some v)
  | Err NonFinite => Ok None
  | Err e => Err e
  end.

Definition tensor_value (r : res (list Q)) : res (option (list Q)) :=
  match r with
  | Ok l => Ok (Some l)
  | Err NonFinite => Ok None
  | Err e => Err e
  end.

(** The two penalties are scalars added to every element of [loss] by
    broadcasting: a non-finite penalty spoils every element there is. *)
Definition classification_loss_regularized (losses : deepcell_losses)
  (self : DotNetLosses) (y_true y_pred : tensor4) : res (list Q) :=
  let focal := focal self in
  let mu := mu self in
  let beta := beta self in
  let gamma := gamma self in
  let n_classes := n_classes self in
  loss <- tensor_value
            (if focal
             then weighted_focal_loss losses y_true y_pred gamma n_classes
             else
               loss <- weighted_categorical_crossentropy losses y_true y_pred
                         n_classes ;;
               loss <- K_mean loss ;;
               Ok [loss]) ;;
  N_loss <- scalar_value (N_loss y_true y_pred) ;;
  inter_loss <- scalar_value (inter_loss y_pred) ;;
  match loss with
  | None => Err NonFinite
  | Some loss =>
      match N_loss, inter_loss with
      | Some N_loss, Some inter_loss =>
          Ok (map (fun l => l + mu * N_loss + beta * inter_loss) loss)
      | _, _ =>
          match loss with
          | [] => Ok []
          | _ :: _ => Err NonFinite
          end
      end
  end.

(** ** Vocabulary of the statements *)

(** The pixel [i] of the ground truth [y_true] is near a point: both of
    its offsets lie in the half-open interval from [-d] to [d], where
    [d = 0.5 + d_pixels]. *)
Definition near_pt (self : DotNetLosses) (y_true : tensor4) (i : index3)
  : Prop :=
  let '(b, y, x) := i in
  let d := (1 # 2) + d_pixels self in
  (- d <= at4 y_true b y x 0 /\ at4 y_true b y x 0 < d) /\
  (- d <= at4 y_true b y x 1 /\ at4 y_true b y x 1 < d).

(** The pixel [i] lies inside a tensor of shape [(B, H, W, _)]. *)
Definition inside (B H W : nat) (i : index3) : Prop :=
  let '(b, y, x) := i in (b < B)%nat /\ (y < H)%nat /\ (x < W)%nat.

(** The smooth-L1 loss of the pair of offsets in y plus that of the pair
    of offsets in x, at the pixel [i]. *)
Definition pixel_loss (self : DotNetLosses) (y_true y_pred : tensor4)
  (i : index3) : Q :=
  let '(b, y, x) := i in
  smooth_l1_pt (sigma self) (at4 y_true b y x 0) (at4 y_pred b y x 0)
  + smooth_l1_pt (sigma self) (at4 y_true b y x 1) (at4 y_pred b y x 1).

(** The mask [near_pt_y & near_pt_x] of a ground truth of shape
    [(B, H, W, _)], entry by entry. *)
Definition near_pt_mask (self : DotNetLosses) (y_true : tensor4)
  (B H W : nat) : tensor3 bool :=
  let d := (1 # 2) + d_pixels self in
  mkTensor3 (B, H, W) (fun b y x =>
    (Qle_bool (- d) (at4 y_true b y x 0) && Qlt_bool (at4 y_true b y x 0) d)
    && (Qle_bool (- d) (at4 y_true b y x 1)
        && Qlt_bool (at4 y_true b y x 1) d)).

(** The spatial mean of the spot-class channel (index 1) of image [b]. *)
Definition spatial_mean (t : tensor4) (b : nat) : Q :=
  let '(_, H, W, _) := shape4 t in
  K_sum (flat_map (fun y => map (fun x => at4 t b y x 1%nat) (seq 0 W))
                  (seq 0 H))
  / Q_of_nat (H * W).

(** Two pixels of one image of [t], one directly below or directly to the
    right of the other, both have a positive spot-class value. *)
Definition adjacent_positive (t : tensor4) : Prop :=
  let '(B, H, W, _) := shape4 t in
  exists b y x, (b < B)%nat /\
    (((y + 1 < H)%nat /\ (x < W)%nat /\
      0 < at4 t b y x 1%nat /\ 0 < at4 t b (y + 1)%nat x 1%nat)
     \/
     ((y < H)%nat /\ (x + 1 < W)%nat /\
      0 < at4 t b y x 1%nat /\ 0 < at4 t b y (x + 1)%nat 1%nat)).

(** The spot-class channel of the padded prediction, and the two
    tensors of products of neighbours that [inter_loss] sums, for a
    prediction of shape [(B, H, W, _)]. *)
Definition padded_spot (t : tensor4) (b y x : nat) : Q :=
  at4 (spatial_2d_padding t ((1, 1), (1, 1))%nat) b y x 1%nat.

Definition vertical_products (t : tensor4) (B H W : nat) : tensor3 Q :=
  mkTensor3 (B, 1 + H + 1 - 1 - 0, 1 + W + 1 - 0 - 0)%nat
    (fun b y x => padded_spot t b (y + 1)%nat (x + 0)%nat
                  * padded_spot t b (y + 0)%nat (x + 0)%nat).

Definition horizontal_products (t : tensor4) (B H W : nat) : tensor3 Q :=
  mkTensor3 (B, 1 + H + 1 - 0 - 0, 1 + W + 1 - 1 - 0)%nat
    (fun b y x => padded_spot t b (y + 0)%nat (x + 1)%nat
                  * padded_spot t b (y + 0)%nat (x + 0)%nat).

(** ** Sample tensors *)

(** One 3x3 image; a spot at the centre of pixel (1, 1), every other
    offset far out of range. *)
Definition centre_spot : tensor4 :=
  mkTensor4 (1, 3, 3, 2)%nat
    (fun b y x c => if Nat.eqb y 1 && Nat.eqb x 1 then 0 else 10).

(** Predicted offsets (0.1, -0.1) at every pixel. *)
Definition tenth_offsets : tensor4 :=
  mkTensor4 (1, 3, 3, 2)%nat
    (fun b y x c => if Nat.eqb c 0 then 1 # 10 else - (1 # 10)).

(** The same prediction at pixel (1, 1), 7 everywhere else. *)
Definition tenth_at_centre : tensor4 :=
  mkTensor4 (1, 3, 3, 2)%nat
    (fun b y x c =>
       if Nat.eqb y 1 && Nat.eqb x 1
       then (if Nat.eqb c 0 then 1 # 10 else - (1 # 10))
       else 7).

(** One 3x3 image without any spot in range. *)
Definition no_spot : tensor4 :=
  mkTensor4 (1, 3, 3, 2)%nat (fun b y x c => 10).

(** A batch of no image, of 1x1 images with two classes. *)
Definition empty_batch : tensor4 :=
  mkTensor4 (0, 1, 1, 2)%nat (fun b y x c => 0).

(** One 1x2 image: a one-hot ground truth with one spot, and a prediction
    that puts one half on each class at both pixels. *)
Definition one_spot_onehot : tensor4 :=
  mkTensor4 (1, 1, 2, 2)%nat
    (fun b y x c => if Nat.eqb x c then 1 else 0).

Definition half_everywhere : tensor4 :=
  mkTensor4 (1, 1, 2, 2)%nat (fun b y x c => 1 # 2).

(** The all-zero prediction of that shape. *)
Definition zero_prediction : tensor4 :=
  mkTensor4 (1, 1, 2, 2)%nat (fun b y x c => 0).

(** A stand-in for the two functions of deepcell: per pixel, the squared
    error on the spot class, weighted by [gamma] in the focal case. *)
Definition squared_error (y_true y_pred : tensor4) : list Q :=
  let '(B, H, W, _) := shape4 y_true in
  map (fun '(b, y, x) =>
         (at4 y_true b y x 1%nat - at4 y_pred b y x 1%nat)
         * (at4 y_true b y x 1%nat - at4 y_pred b y x 1%nat))
      (all_indices (B, H, W)).

Definition sample_losses : deepcell_losses :=
  mkDeepcellLosses
    (fun y_true y_pred gamma n_classes =>
       Ok (map (Qmult gamma) (squared_error y_true y_pred)))
    (fun y_true y_pred n_classes => Ok (squared_error y_true y_pred)).

(** ** Differentiability over the rationals

    [has_derivative_at f x d]: the difference quotients of [f] at [x]
    tend to [d]. *)
Definition has_derivative_at (f : Q -> Q) (x d : Q) : Prop :=
  forall eps, 0 < eps ->
  exists delta, 0 < delta /\
    forall h, ~ h == 0 -> Qabs h < delta ->
      Qabs ((f (x + h) - f x) / h - d) < eps.

(** [continuous_at f x]: the values of [f] near [x] tend to [f x]. *)
Definition continuous_at (f : Q -> Q) (x : Q) : Prop :=
  forall eps, 0 < eps ->
  exists delta, 0 < delta /\
    forall h, Qabs h < delta -> Qabs (f (x + h) - f x) < eps.

(** The slope of the branch that [tf.where] selects at [r]: that of the
    quadratic branch below [1 / sigma_squared], that of the linear one
    from there on. *)
Definition where_slope (sigma_squared r : Q) : Q :=
  if Qlt_bool r (1 / sigma_squared) then sigma_squared * r else 1.

(** The products of neighbouring spot-class values of a tensor, summed
    over its pairs of vertical neighbours and over its pairs of horizontal
    neighbours, each pair once and without any padding. *)
Definition neighbour_products (t : tensor4) : Q :=
  let '(B, H, W, _) := shape4 t in
  K_sum (map (fun '(b, y, x) =>
                at4 t b (y + 1)%nat x 1%nat * at4 t b y x 1%nat)
             (all_indices (B, H - 1, W)%nat))
  + K_sum (map (fun '(b, y, x) =>
                  at4 t b y (x + 1)%nat 1%nat * at4 t b y x 1%nat)
               (all_indices (B, H, W - 1)%nat)).

(** The sum of [f 0], ..., [f (n - 1)]. *)
Definition sum_n (n : nat) (f : nat -> Q) : Q := K_sum (map f (seq 0 n)).

(** * Properties *)

(** ** Arithmetic helpers *)

Lemma Qlt_bool_iff (x y : Q) : Qlt_bool x y = true <-> x < y.
Proof.
  unfold Qlt_bool. rewrite negb_true_iff. split; intro H.
  - apply Qnot_le_lt. intro Hle. apply Qle_bool_iff in Hle. congruence.
  - destruct (Qle_bool y x) eqn:E; [|reflexivity].
    apply Qle_bool_iff in E. exfalso. apply (Qlt_not_le _ _ H E).
Qed.

Lemma Qlt_bool_false_iff (x y : Q) : Qlt_bool x y = false <-> y <= x.
Proof.
  unfold Qlt_bool. rewrite negb_false_iff. apply Qle_bool_iff.
Qed.

#[export] Instance Qlt_bool_comp : Proper (Qeq ==> Qeq ==> eq) Qlt_bool.
Proof.
  intros x x' Hx y y' Hy. unfold Qlt_bool. now rewrite Hx, Hy.
Qed.

Lemma Qsquare (x : Q) : x ^ 2 == x * x.
Proof. reflexivity. Qed.

Lemma Qsquare_pos (x : Q) : ~ x == 0 -> 0 < x ^ 2.
Proof.
  intro H. rewrite Qsquare.
  destruct (Q_dec x 0) as [[Hlt | Hgt] | Heq]; [| | contradiction].
  - setoid_replace (x * x) with ((- x) * (- x)) by ring.
    apply Qmult_lt_0_compat; lra.
  - apply Qmult_lt_0_compat; assumption.
Qed.

Lemma Qsquare_nonzero (x : Q) : ~ x == 0 -> ~ x ^ 2 == 0.
Proof. intros H E. apply Qsquare_pos in H. lra. Qed.

Lemma Qsquare_zero (x : Q) : x == 0 -> x ^ 2 == 0.
Proof. intro H. rewrite Qsquare, H. ring. Qed.

Lemma Qinv_pos (s : Q) : 0 < s -> 0 < 1 / s.
Proof.
  intro H. unfold Qdiv. rewrite Qmult_1_l. now apply Qinv_lt_0_compat.
Qed.

Lemma Qhalf_div (s : Q) : (1 # 2) / s == (1 # 2) * (1 / s).
Proof. unfold Qdiv. ring. Qed.

Lemma pydiv_ok (a b : Q) : ~ b == 0 -> pydiv a b = Ok (a / b).
Proof.
  intro H. unfold pydiv. destruct (Qeq_bool b 0) eqn:E; [|reflexivity].
  apply Qeq_bool_iff in E. contradiction.
Qed.

Lemma pydiv_zero (a b : Q) : b == 0 -> pydiv a b = Err ZeroDivisionError.
Proof.
  intro H. unfold pydiv. apply Qeq_bool_iff in H. now rewrite H.
Qed.

Lemma fdiv_ok (a b : Q) : ~ b == 0 -> fdiv a b = Ok (a / b).
Proof.
  intro H. unfold fdiv. destruct (Qeq_bool b 0) eqn:E; [|reflexivity].
  apply Qeq_bool_iff in E. contradiction.
Qed.

Lemma Q_of_nat_pos (n : nat) : (0 < n)%nat -> 0 < Q_of_nat n.
Proof.
  intro H. unfold Q_of_nat, Qlt. simpl. lia.
Qed.

Lemma Q_of_nat_zero (n : nat) : Q_of_nat n == 0 <-> n = 0%nat.
Proof.
  unfold Q_of_nat, Qeq. simpl. lia.
Qed.

(** ** Rank-1 tensors *)

Lemma map2_length {A B C : Type} (f : A -> B -> C) (a : list A) (b : list B) :
  length a = length b -> length (map2 f a b) = length a.
Proof.
  revert b. induction a as [|x a IH]; intros [|y b] H; simpl in *;
    try reflexivity; try discriminate.
  f_equal. apply IH. lia.
Qed.

Lemma map2_map {I A B C : Type} (f : A -> B -> C) (g : I -> A) (h : I -> B)
  (l : list I) :
  map2 f (map g l) (map h l) = map (fun i => f (g i) (h i)) l.
Proof.
  induction l as [|i l IH]; simpl; [reflexivity | now rewrite IH].
Qed.

Lemma map2_nth_error {A B C : Type} (f : A -> B -> C) (a : list A)
  (b : list B) (i : nat) (x : A) (y : B) :
  nth_error a i = Some x -> nth_error b i = Some y ->
  nth_error (map2 f a b) i = Some (f x y).
Proof.
  revert b i. induction a as [|x0 a IH]; intros [|y0 b] [|i] Ha Hb;
    simpl in *; try discriminate.
  - congruence.
  - now apply IH.
Qed.

Lemma broadcast2_same_length (f : Q -> Q -> Q) (a b : list Q) :
  length a = length b -> broadcast2 f a b = Ok (map2 f a b).
Proof.
  intro H. unfold broadcast2. now rewrite H, Nat.eqb_refl.
Qed.

Lemma K_sum_app (l l' : list Q) : K_sum (l ++ l') == K_sum l + K_sum l'.
Proof.
  induction l as [|x l IH]; simpl; [ring | rewrite IH; ring].
Qed.

Lemma K_sum_map_plus {I : Type} (f g : I -> Q) (l : list I) :
  K_sum (map (fun i => f i + g i) l) == K_sum (map f l) + K_sum (map g l).
Proof.
  induction l as [|i l IH]; simpl; [ring | rewrite IH; ring].
Qed.

Lemma K_sum_Forall2 (l l' : list Q) : Forall2 Qeq l l' -> K_sum l == K_sum l'.
Proof.
  induction 1 as [|x y l l' Hxy _ IH]; simpl; [reflexivity|].
  now rewrite Hxy, IH.
Qed.

Lemma K_sum_nonneg (l : list Q) : Forall (fun v => 0 <= v) l -> 0 <= K_sum l.
Proof.
  induction 1 as [|x l Hx _ IH]; simpl; lra.
Qed.

Lemma K_sum_zero (l : list Q) : Forall (fun v => v == 0) l -> K_sum l == 0.
Proof.
  induction 1 as [|x l Hx _ IH]; simpl; lra.
Qed.

Lemma K_sum_permutation (l l' : list Q) :
  Permutation l l' -> K_sum l == K_sum l'.
Proof.
  induction 1 as [| x l l' _ IH | x y l | l l' l'' _ IH1 _ IH2]; simpl.
  - reflexivity.
  - now rewrite IH.
  - ring.
  - now rewrite IH1.
Qed.

(** ** smooth_l1 *)

(** With equal shapes and [sigma] not zero, [smooth_l1] is the pointwise
    map of [smooth_l1_pt]. *)
Lemma smooth_l1_pointwise (y_true y_pred : list Q) (sigma : Q) :
  length y_true = length y_pred -> ~ sigma == 0 ->
  smooth_l1 y_true y_pred sigma = Ok (map2 (smooth_l1_pt sigma) y_true y_pred).
Proof.
  intros Hlen Hs. unfold smooth_l1.
  rewrite (broadcast2_same_length _ _ _ Hlen). simpl bind.
  rewrite !pydiv_ok by now apply Qsquare_nonzero. simpl bind.
  f_equal. clear Hlen. revert y_pred.
  induction y_true as [|t y_true IH]; intros [|p y_pred]; try reflexivity.
  change (map2 Qminus (t :: y_true) (p :: y_pred))
    with ((t - p) :: map2 Qminus y_true y_pred).
  cbn [map map2]. f_equal. apply IH.
Qed.

Lemma smooth_l1_sigma_zero (y_true y_pred : list Q) (sigma : Q) :
  length y_true = length y_pred -> sigma == 0 ->
  smooth_l1 y_true y_pred sigma = Err ZeroDivisionError.
Proof.
  intros Hlen Hs. unfold smooth_l1.
  rewrite (broadcast2_same_length _ _ _ Hlen). simpl bind.
  now rewrite pydiv_zero by now apply Qsquare_zero.
Qed.

Lemma where_branch_nonneg (s r : Q) : 0 < s -> 0 <= r -> 0 <= where_branch s r.
Proof.
  intros Hs Hr. unfold where_branch.
  destruct (Qlt_bool r (1 / s)) eqn:E.
  - unfold quadratic_branch. rewrite Qsquare.
    assert (0 <= r * r) by (apply Qmult_le_0_compat; assumption).
    assert (0 <= s * (r * r)) by (apply Qmult_le_0_compat; lra).
    lra.
  - apply Qlt_bool_false_iff in E. unfold linear_branch.
    pose proof (Qinv_pos s Hs). rewrite Qhalf_div. lra.
Qed.

#[export] Instance where_branch_comp : Proper (Qeq ==> Qeq ==> Qeq) where_branch.
Proof.
  intros s s' Hs r r' Hr. unfold where_branch, quadratic_branch, linear_branch.
  rewrite Hs, Hr at 1.
  destruct (Qlt_bool r' (1 / s')); rewrite ?Qsquare, Hs, Hr; reflexivity.
Qed.

#[export] Instance smooth_l1_pt_comp :
  Proper (Qeq ==> Qeq ==> Qeq ==> Qeq) smooth_l1_pt.
Proof.
  intros s s' Hs t t' Ht p p' Hp. unfold smooth_l1_pt.
  apply where_branch_comp.
  - now rewrite !Qsquare, Hs.
  - now rewrite Ht, Hp.
Qed.

Lemma smooth_l1_pt_nonneg (sigma t p : Q) :
  ~ sigma == 0 -> 0 <= smooth_l1_pt sigma t p.
Proof.
  intro Hs. unfold smooth_l1_pt. apply where_branch_nonneg.
  - now apply Qsquare_pos.
  - apply Qabs_nonneg.
Qed.

Lemma Forall_map2 {A B C : Type} (P : C -> Prop) (f : A -> B -> C)
  (a : list A) (b : list B) :
  (forall x y, P (f x y)) -> Forall P (map2 f a b).
Proof.
  intro H. revert b.
  induction a as [|x a IH]; intros [|y b]; simpl; constructor; auto.
Qed.

(** C2.  On two tensors of one shape and a positive [sigma], [smooth_l1]
    returns a tensor of that shape; with [s = sigma^2] and
    [r = |y_true - y_pred|] at an index, its element there is
    [0.5 * s * r^2] when [r < 1/s] and [r - 0.5/s] otherwise.  Nothing is
    summed: element [i] of the result depends on element [i] of the
    inputs only. *)
Theorem smooth_l1_elementwise (y_true y_pred : list Q) (sigma : Q) :
  length y_true = length y_pred -> 0 < sigma ->
  exists out,
    smooth_l1 y_true y_pred sigma = Ok out /\
    length out = length y_true /\
    forall i t p,
      nth_error y_true i = Some t -> nth_error y_pred i = Some p ->
      exists e, nth_error out i = Some e /\
        let s := sigma ^ 2 in
        let r := Qabs (t - p) in
        (r < 1 / s -> e = (1 # 2) * s * r ^ 2) /\
        (~ r < 1 / s -> e = r - (1 # 2) / s).
Proof.
  intros Hlen Hs.
  assert (Hnz : ~ sigma == 0) by lra.
  exists (map2 (smooth_l1_pt sigma) y_true y_pred).
  split; [now apply smooth_l1_pointwise|].
  split; [now apply map2_length|].
  intros i t p Ht Hp. exists (smooth_l1_pt sigma t p).
  split; [now apply map2_nth_error|].
  cbv zeta. unfold smooth_l1_pt, where_branch.
  destruct (Qlt_bool (Qabs (t - p)) (1 / sigma ^ 2)) eqn:E.
  - apply Qlt_bool_iff in E. split; [reflexivity | contradiction].
  - apply Qlt_bool_false_iff in E. split; [|reflexivity].
    intro Hlt. exfalso. apply (Qlt_not_le _ _ Hlt E).
Qed.

Lemma smooth_l1_elementwise_witness :
  exists out,
    smooth_l1 [0; 0; 1] [1 # 10; - (1 # 10); 3] 3 = Ok out /\
    length out = 3%nat /\
    forall i t p,
      nth_error [0; 0; 1] i = Some t ->
      nth_error [1 # 10; - (1 # 10); 3] i = Some p ->
      exists e, nth_error out i = Some e /\
        let s := 3 ^ 2 in
        let r := Qabs (t - p) in
        (r < 1 / s -> e = (1 # 2) * s * r ^ 2) /\
        (~ r < 1 / s -> e = r - (1 # 2) / s).
Proof.
  apply (smooth_l1_elementwise [0; 0; 1] [1 # 10; - (1 # 10); 3] 3).
  - reflexivity.
  - reflexivity.
Defined.

(** C10.  On two tensors of one shape and [sigma^2 > 0], every element
    of the tensor returned by [smooth_l1] is nonnegative. *)
Theorem smooth_l1_nonneg (y_true y_pred : list Q) (sigma : Q) :
  length y_true = length y_pred -> 0 < sigma ^ 2 ->
  exists out,
    smooth_l1 y_true y_pred sigma = Ok out /\
    Forall (fun e => 0 <= e) out.
Proof.
  intros Hlen Hs.
  assert (Hnz : ~ sigma == 0).
  { intro E. apply Qsquare_zero in E. lra. }
  exists (map2 (smooth_l1_pt sigma) y_true y_pred).
  split; [now apply smooth_l1_pointwise|].
  apply Forall_map2. intros t p. now apply smooth_l1_pt_nonneg.
Qed.

Lemma smooth_l1_nonneg_witness :
  exists out,
    smooth_l1 [0; 0; 1] [1 # 10; - (1 # 10); 3] (- (3)) = Ok out /\
    Forall (fun e => 0 <= e) out.
Proof.
  apply (smooth_l1_nonneg [0; 0; 1] [1 # 10; - (1 # 10); 3] (- (3))).
  - reflexivity.
  - reflexivity.
Defined.

(** *** The branch boundary *)

Lemma quadratic_branch_at_boundary (s : Q) :
  0 < s -> quadratic_branch s (1 / s) == (1 # 2) / s.
Proof.
  intro Hs. unfold quadratic_branch. rewrite Qsquare. field. lra.
Qed.

Lemma linear_branch_at_boundary (s : Q) :
  0 < s -> linear_branch s (1 / s) == (1 # 2) / s.
Proof.
  intro Hs. unfold linear_branch. field. lra.
Qed.

Lemma quadratic_quotient (s h : Q) :
  0 < s -> ~ h == 0 ->
  (quadratic_branch s (1 / s + h) - quadratic_branch s (1 / s)) / h - 1
  == (1 # 2) * s * h.
Proof.
  intros Hs Hh. unfold quadratic_branch. rewrite !Qsquare. field.
  split; [lra | assumption].
Qed.

Lemma linear_quotient (s h : Q) :
  0 < s -> ~ h == 0 ->
  (linear_branch s (1 / s + h) - linear_branch s (1 / s)) / h - 1 == 0.
Proof.
  intros Hs Hh. unfold linear_branch. field. split; [lra | assumption].
Qed.

Lemma small_slope (s eps h : Q) :
  0 < s -> 0 < eps -> Qabs h < eps / ((1 # 2) * s) ->
  Qabs ((1 # 2) * s * h) < eps.
Proof.
  intros Hs He Hh. rewrite Qabs_Qmult.
  rewrite (Qabs_pos ((1 # 2) * s)) by lra.
  apply (Qmult_lt_r _ _ ((1 # 2) * s)) in Hh; [|lra].
  setoid_replace (eps / ((1 # 2) * s) * ((1 # 2) * s)) with eps in Hh
    by (field; lra).
  lra.
Qed.

Lemma quadratic_branch_derivative (s : Q) :
  0 < s -> has_derivative_at (quadratic_branch s) (1 / s) 1.
Proof.
  intros Hs eps He. exists (eps / ((1 # 2) * s)). split.
  - apply Qlt_shift_div_l; lra.
  - intros h Hh Hsmall. rewrite (quadratic_quotient s h Hs Hh).
    now apply small_slope.
Qed.

Lemma linear_branch_derivative (s : Q) :
  0 < s -> has_derivative_at (linear_branch s) (1 / s) 1.
Proof.
  intros Hs eps He. exists 1. split; [reflexivity|].
  intros h Hh _. rewrite (linear_quotient s h Hs Hh). exact He.
Qed.

Lemma where_branch_derivative (s : Q) :
  0 < s -> has_derivative_at (where_branch s) (1 / s) 1.
Proof.
  intros Hs eps He. exists (eps / ((1 # 2) * s)). split.
  - apply Qlt_shift_div_l; lra.
  - intros h Hh Hsmall.
    assert (E0 : where_branch s (1 / s) == quadratic_branch s (1 / s)).
    { unfold where_branch.
      destruct (Qlt_bool (1 / s) (1 / s)) eqn:E; [reflexivity|].
      now rewrite quadratic_branch_at_boundary, linear_branch_at_boundary. }
    assert (E1 : where_branch s (1 / s) == linear_branch s (1 / s)).
    { rewrite E0.
      now rewrite quadratic_branch_at_boundary, linear_branch_at_boundary. }
    unfold where_branch at 1.
    destruct (Qlt_bool (1 / s + h) (1 / s)) eqn:E.
    + rewrite E0, (quadratic_quotient s h Hs Hh). now apply small_slope.
    + rewrite E1, (linear_quotient s h Hs Hh). exact He.
Qed.

Lemma where_branch_below (s r : Q) :
  r < 1 / s -> where_branch s r = quadratic_branch s r.
Proof.
  intro H. unfold where_branch. apply Qlt_bool_iff in H. now rewrite H.
Qed.

Lemma where_branch_above (s r : Q) :
  1 / s <= r -> where_branch s r = linear_branch s r.
Proof.
  intro H. unfold where_branch. apply Qlt_bool_false_iff in H. now rewrite H.
Qed.

Lemma Qabs_lt_both (h a : Q) : Qabs h < a -> - a < h /\ h < a.
Proof. intro H. now apply Qabs_Qlt_condition. Qed.

(** Away from the boundary the selected branch is the same on a whole
    neighbourhood; at the boundary the two one-sided slopes agree. *)
Lemma where_branch_derivative_everywhere (s r : Q) :
  0 < s -> has_derivative_at (where_branch s) r (where_slope s r).
Proof.
  intros Hs eps He. unfold where_slope.
  assert (He' : 0 < eps / ((1 # 2) * s)) by (apply Qlt_shift_div_l; lra).
  destruct (Qlt_le_dec r (1 / s)) as [Hlt | Hge].
  - pose proof Hlt as Hb. apply Qlt_bool_iff in Hb. rewrite Hb.
    assert (Hd : exists delta, 0 < delta /\ delta <= 1 / s - r
                               /\ delta <= eps / ((1 # 2) * s)).
    { destruct (Qlt_le_dec (1 / s - r) (eps / ((1 # 2) * s))).
      - exists (1 / s - r). repeat split; lra.
      - exists (eps / ((1 # 2) * s)). repeat split; lra. }
    destruct Hd as (delta & Hpos & Hd1 & Hd2). exists delta.
    split; [assumption|]. intros h Hh Hsmall.
    destruct (Qabs_lt_both h delta Hsmall) as [_ Hup].
    rewrite (where_branch_below s (r + h)) by lra.
    rewrite (where_branch_below s r) by assumption.
    assert (E : (quadratic_branch s (r + h) - quadratic_branch s r) / h - s * r
                == (1 # 2) * s * h).
    { unfold quadratic_branch. rewrite !Qsquare. field. assumption. }
    rewrite E. apply small_slope; try assumption. lra.
  - pose proof Hge as Hb. apply Qlt_bool_false_iff in Hb. rewrite Hb.
    destruct (Qlt_le_dec (1 / s) r) as [Hgt | Hle].
    + exists (r - 1 / s). split; [lra|]. intros h Hh Hsmall.
      destruct (Qabs_lt_both h _ Hsmall) as [Hlow _].
      rewrite (where_branch_above s (r + h)) by lra.
      rewrite (where_branch_above s r) by assumption.
      assert (E : (linear_branch s (r + h) - linear_branch s r) / h - 1 == 0).
      { unfold linear_branch. field. split; [lra | assumption]. }
      rewrite E. exact He.
    + assert (E : r == 1 / s) by lra.
      destruct (where_branch_derivative s Hs eps He) as (delta & Hpos & Hq).
      exists delta. split; [assumption|]. intros h Hh Hsmall.
      rewrite E. now apply Hq.
Qed.

Lemma where_slope_continuous (s : Q) :
  0 < s -> continuous_at (where_slope s) (1 / s).
Proof.
  intros Hs eps He. exists (eps / s). split.
  - apply Qlt_shift_div_l; lra.
  - intros h Hsmall.
    assert (Hb : s * Qabs h < eps).
    { apply (Qmult_lt_r _ _ s) in Hsmall; [|assumption].
      setoid_replace (eps / s * s) with eps in Hsmall by (field; lra). lra. }
    unfold where_slope.
    assert (E0 : Qlt_bool (1 / s) (1 / s) = false).
    { apply Qlt_bool_false_iff. lra. }
    rewrite E0.
    destruct (Qlt_bool (1 / s + h) (1 / s)) eqn:E.
    + setoid_replace (s * (1 / s + h) - 1) with (s * h) by (field; lra).
      rewrite Qabs_Qmult, (Qabs_pos s) by lra. exact Hb.
    + setoid_replace (1 - 1) with 0 by ring. exact He.
Qed.

(** C5.  For a positive [sigma], at [r = 1/sigma^2] the two branch
    formulas of [smooth_l1] have the same value, [0.5/sigma^2], and the
    same derivative in [r], namely 1.  So the function selected by
    [tf.where] is differentiable there with derivative 1; it is
    differentiable at every [r], with the slope of the branch selected,
    and that slope is continuous at the boundary. *)
Theorem smooth_l1_branches_agree (sigma : Q) :
  0 < sigma ->
  let s := sigma ^ 2 in
  let r0 := 1 / s in
  quadratic_branch s r0 == (1 # 2) / s /\
  linear_branch s r0 == (1 # 2) / s /\
  has_derivative_at (quadratic_branch s) r0 1 /\
  has_derivative_at (linear_branch s) r0 1 /\
  has_derivative_at (where_branch s) r0 1 /\
  (forall r, has_derivative_at (where_branch s) r (where_slope s r)) /\
  continuous_at (where_slope s) r0.
Proof.
  intros Hsigma s r0.
  assert (Hs : 0 < s) by (apply Qsquare_pos; lra).
  repeat split.
  - now apply quadratic_branch_at_boundary.
  - now apply linear_branch_at_boundary.
  - now apply quadratic_branch_derivative.
  - now apply linear_branch_derivative.
  - now apply where_branch_derivative.
  - intro r. now apply where_branch_derivative_everywhere.
  - now apply where_slope_continuous.
Qed.

Lemma smooth_l1_branches_agree_witness :
  let s := 3 ^ 2 in
  let r0 := 1 / s in
  quadratic_branch s r0 == (1 # 2) / s /\
  linear_branch s r0 == (1 # 2) / s /\
  has_derivative_at (quadratic_branch s) r0 1 /\
  has_derivative_at (linear_branch s) r0 1 /\
  has_derivative_at (where_branch s) r0 1 /\
  (forall r, has_derivative_at (where_branch s) r (where_slope s r)) /\
  continuous_at (where_slope s) r0.
Proof.
  apply (smooth_l1_branches_agree 3). reflexivity.
Defined.

(** ** Indices, masks and gathers *)

Lemma in_all_indices (B H W : nat) (i : index3) :
  In i (all_indices (B, H, W)) <-> inside B H W i.
Proof.
  destruct i as [[b y] x]. unfold all_indices, inside.
  rewrite in_flat_map. split.
  - intros (b' & Hb & Hin). apply in_flat_map in Hin.
    destruct Hin as (y' & Hy & Hin). apply in_map_iff in Hin.
    destruct Hin as (x' & E & Hx). inversion E; subst.
    apply in_seq in Hb, Hy, Hx. lia.
  - intros (Hb & Hy & Hx). exists b. split; [apply in_seq; lia|].
    apply in_flat_map. exists y. split; [apply in_seq; lia|].
    apply in_map_iff. exists x. split; [reflexivity | apply in_seq; lia].
Qed.

Lemma NoDup_flat_map {A B : Type} (f : A -> list B) (l : list A) :
  NoDup l ->
  (forall a, In a l -> NoDup (f a)) ->
  (forall a a' b, In a l -> In a' l -> In b (f a) -> In b (f a') -> a = a') ->
  NoDup (flat_map f l).
Proof.
  induction 1 as [|a l Hnotin Hnd IH]; intros Hf Hdisj; simpl.
  - constructor.
  - apply NoDup_app.
    + apply Hf. now left.
    + apply IH.
      * intros a' Ha'. apply Hf. now right.
      * intros a1 a2 b H1 H2. apply Hdisj; now right.
    + intros b Hb Hb'. apply in_flat_map in Hb'.
      destruct Hb' as (a' & Ha' & Hb').
      assert (a = a') by (apply (Hdisj a a' b); auto; [now left | now right]).
      subst. contradiction.
Qed.

Lemma NoDup_map_injective {A B : Type} (f : A -> B) (l : list A) :
  (forall a a', f a = f a' -> a = a') -> NoDup l -> NoDup (map f l).
Proof.
  intros Hinj. induction 1 as [|a l Hnotin _ IH]; simpl; constructor.
  - intro Hin. apply in_map_iff in Hin. destruct Hin as (a' & E & Ha').
    apply Hinj in E. subst. contradiction.
  - exact IH.
Qed.

Lemma NoDup_all_indices (s : nat * nat * nat) : NoDup (all_indices s).
Proof.
  destruct s as [[B H] W]. unfold all_indices.
  apply NoDup_flat_map.
  - apply seq_NoDup.
  - intros b _. apply NoDup_flat_map.
    + apply seq_NoDup.
    + intros y _. apply NoDup_map_injective; [|apply seq_NoDup].
      intros x x' E. now inversion E.
    + intros y y' i _ _ Hi Hi'. apply in_map_iff in Hi, Hi'.
      destruct Hi as (x & E & _), Hi' as (x' & E' & _). congruence.
  - intros b b' i _ _ Hi Hi'. apply in_flat_map in Hi, Hi'.
    destruct Hi as (y & _ & Hi), Hi' as (y' & _ & Hi').
    apply in_map_iff in Hi, Hi'.
    destruct Hi as (x & E & _), Hi' as (x' & E' & _). congruence.
Qed.

Lemma in_range_iff (B H W : nat) (i : index3) :
  in_range (B, H, W) i = true <-> inside B H W i.
Proof.
  destruct i as [[b y] x]. unfold in_range, inside.
  rewrite !andb_true_iff, !Nat.ltb_lt. tauto.
Qed.

Lemma in_tf_where (mask : tensor3 bool) (B H W : nat) (i : index3) :
  shape3 mask = (B, H, W) ->
  In i (tf_where mask) <-> inside B H W i /\ get3 mask i = true.
Proof.
  intro Hs. unfold tf_where. rewrite Hs, filter_In, in_all_indices.
  reflexivity.
Qed.

Lemma NoDup_tf_where (mask : tensor3 bool) : NoDup (tf_where mask).
Proof. apply NoDup_filter, NoDup_all_indices. Qed.

Lemma tf_where_in_range (mask : tensor3 bool) :
  forallb (in_range (shape3 mask)) (tf_where mask) = true.
Proof.
  apply forallb_forall. intros i Hi.
  destruct (shape3 mask) as [[B H] W] eqn:Hs.
  apply (in_tf_where mask B H W i Hs) in Hi. now apply in_range_iff.
Qed.

Lemma shape3_eqb_refl (s : nat * nat * nat) : shape3_eqb s s = true.
Proof.
  destruct s as [[B H] W]. unfold shape3_eqb. now rewrite !Nat.eqb_refl.
Qed.

Lemma channel_ok (k : nat) (t : tensor4) (B H W C : nat) :
  shape4 t = (B, H, W, C) -> (k < C)%nat ->
  channel k t = Ok (mkTensor3 (B, H, W) (fun b y x => at4 t b y x k)).
Proof.
  intros Hs Hk. unfold channel. rewrite Hs.
  apply Nat.ltb_lt in Hk. now rewrite Hk.
Qed.

Lemma channel_shape (k : nat) (t : tensor4) (c : tensor3 Q) (B H W C : nat) :
  shape4 t = (B, H, W, C) -> channel k t = Ok c ->
  c = mkTensor3 (B, H, W) (fun b y x => at4 t b y x k).
Proof.
  intros Hs. unfold channel. rewrite Hs.
  destruct (k <? C)%nat; congruence.
Qed.

(** [gather_nd] succeeds exactly when every index is inside the tensor. *)
Lemma gather_nd_eq (t : tensor3 Q) (indices : list index3) :
  gather_nd t indices =
  if forallb (in_range (shape3 t)) indices
  then Ok (map (get3 t) indices)
  else Err InvalidArgumentError.
Proof.
  unfold gather_nd. induction indices as [|i l IH]; simpl; [reflexivity|].
  destruct (in_range (shape3 t) i); simpl; [|reflexivity].
  rewrite IH. destruct (forallb (in_range (shape3 t)) l); reflexivity.
Qed.

Lemma forallb_permutation {A : Type} (f : A -> bool) (l l' : list A) :
  Permutation l l' -> forallb f l = forallb f l'.
Proof.
  induction 1 as [| x l l' _ IH | x y l | l l' l'' _ IH1 _ IH2]; simpl.
  - reflexivity.
  - now rewrite IH.
  - destruct (f x), (f y); reflexivity.
  - congruence.
Qed.

Lemma K_sum_map_ext_in {I : Type} (f g : I -> Q) (l : list I) :
  (forall i, In i l -> f i == g i) -> K_sum (map f l) == K_sum (map g l).
Proof.
  induction l as [|i l IH]; intro H; simpl; [reflexivity|].
  rewrite (H i) by now left. rewrite IH; [reflexivity|].
  intros j Hj. apply H. now right.
Qed.

Lemma filter_none {A : Type} (f : A -> bool) (l : list A) :
  (forall a, In a l -> f a = false) -> filter f l = [].
Proof.
  induction l as [|a l IH]; intro H; simpl; [reflexivity|].
  rewrite (H a) by now left. apply IH. intros b Hb. apply H. now right.
Qed.

(** ** regression_loss *)

(** The mask computed by the first half of the method. *)
Lemma near_pt_mask_iff (self : DotNetLosses) (y_true : tensor4)
  (B H W : nat) (i : index3) :
  get3 (near_pt_mask self y_true B H W) i = true <-> near_pt self y_true i.
Proof.
  destruct i as [[b y] x]. unfold near_pt_mask, near_pt, get3. cbn [at3].
  rewrite !andb_true_iff, !Qle_bool_iff, !Qlt_bool_iff. reflexivity.
Qed.

Lemma in_near_pt_indices (self : DotNetLosses) (y_true : tensor4)
  (B H W : nat) (i : index3) :
  In i (tf_where (near_pt_mask self y_true B H W)) <->
  inside B H W i /\ near_pt self y_true i.
Proof.
  rewrite (in_tf_where _ B H W) by reflexivity.
  now rewrite near_pt_mask_iff.
Qed.

(** The second half of the method in closed form. *)
Lemma regression_loss_on_eq (sigma : Q) (yt xt yp xp : tensor3 Q)
  (indices : list index3) :
  regression_loss_on sigma yt xt yp xp indices =
  if forallb (in_range (shape3 yt)) indices
     && forallb (in_range (shape3 xt)) indices
     && forallb (in_range (shape3 yp)) indices
     && forallb (in_range (shape3 xp)) indices
  then if Qeq_bool (sigma ^ 2) 0 then Err ZeroDivisionError
       else Ok (K_sum
                  (map (fun i => smooth_l1_pt sigma (get3 yt i) (get3 yp i))
                       indices
                   ++ map (fun i => smooth_l1_pt sigma (get3 xt i) (get3 xp i))
                        indices)
                / Q_of_nat (Nat.max 1 (length indices)))
  else Err InvalidArgumentError.
Proof.
  unfold regression_loss_on. rewrite !gather_nd_eq.
  destruct (forallb (in_range (shape3 yt)) indices); [|reflexivity].
  destruct (forallb (in_range (shape3 xt)) indices); [|reflexivity].
  destruct (forallb (in_range (shape3 yp)) indices); [|reflexivity].
  destruct (forallb (in_range (shape3 xp)) indices); [|reflexivity].
  cbn [bind andb].
  destruct (Qeq_bool (sigma ^ 2) 0) eqn:E.
  - apply Qeq_bool_iff in E.
    assert (Hz : sigma == 0).
    { destruct (Qeq_dec sigma 0) as [H | H]; [assumption|].
      apply Qsquare_nonzero in H. contradiction. }
    rewrite smooth_l1_sigma_zero; [reflexivity | | assumption].
    now rewrite !length_map.
  - apply Qeq_bool_neq in E.
    assert (Hnz : ~ sigma == 0).
    { intro H. apply E. now apply Qsquare_zero. }
    rewrite !smooth_l1_pointwise by (try assumption; now rewrite !length_map).
    cbn [bind]. rewrite !map2_map. apply fdiv_ok.
    intro H. apply Q_of_nat_zero in H. lia.
Qed.

(** The first half of the method on tensors with at least two channels. *)
Lemma regression_loss_with_eq (reorder : list index3 -> list index3)
  (self : DotNetLosses) (y_true y_pred : tensor4) (B H W C B' H' W' C' : nat) :
  shape4 y_true = (B, H, W, C) -> (2 <= C)%nat ->
  shape4 y_pred = (B', H', W', C') -> (2 <= C')%nat ->
  regression_loss_with reorder self y_true y_pred =
  regression_loss_on (sigma self)
    (mkTensor3 (B, H, W) (fun b y x => at4 y_true b y x 0%nat))
    (mkTensor3 (B, H, W) (fun b y x => at4 y_true b y x 1%nat))
    (mkTensor3 (B', H', W') (fun b y x => at4 y_pred b y x 0%nat))
    (mkTensor3 (B', H', W') (fun b y x => at4 y_pred b y x 1%nat))
    (reorder (tf_where (near_pt_mask self y_true B H W))).
Proof.
  intros Ht HC Hp HC'. unfold regression_loss_with.
  rewrite (channel_ok 0 y_true B H W C Ht) by lia.
  rewrite (channel_ok 1 y_true B H W C Ht) by lia.
  rewrite (channel_ok 0 y_pred B' H' W' C' Hp) by lia.
  rewrite (channel_ok 1 y_pred B' H' W' C' Hp) by lia.
  cbn [bind]. unfold logical_and, tzip, K_less_equal, K_less, tmap.
  cbn [shape3 at3]. rewrite !shape3_eqb_refl. cbn [bind shape3 at3].
  rewrite !shape3_eqb_refl. reflexivity.
Qed.

Lemma regression_loss_on_permutation (sigma : Q) (yt xt yp xp : tensor3 Q)
  (l l' : list index3) :
  Permutation l l' ->
  req (regression_loss_on sigma yt xt yp xp l')
      (regression_loss_on sigma yt xt yp xp l).
Proof.
  intro HP. rewrite !regression_loss_on_eq.
  rewrite <- !(forallb_permutation _ l l' HP).
  destruct (forallb (in_range (shape3 yt)) l && forallb (in_range (shape3 xt)) l
            && forallb (in_range (shape3 yp)) l
            && forallb (in_range (shape3 xp)) l); [|reflexivity].
  destruct (Qeq_bool (sigma ^ 2) 0); [reflexivity|].
  unfold req. rewrite <- (Permutation_length HP).
  rewrite !K_sum_app.
  rewrite (K_sum_permutation _ _
             (Permutation_map (fun i => smooth_l1_pt sigma (get3 yt i) (get3 yp i))
                HP)).
  rewrite (K_sum_permutation _ _
             (Permutation_map (fun i => smooth_l1_pt sigma (get3 xt i) (get3 xp i))
                HP)).
  reflexivity.
Qed.

Lemma req_refl (r : res Q) : req r r.
Proof. destruct r; simpl; reflexivity. Qed.

(** In exact arithmetic, whatever order the index-collection step lists
    the selected pixels in, as long as the four gathers use the same
    list, the loss is the one [regression_loss] returns with the order of
    [tf.where].  This is a fact about the formula only: the sum of the
    source is a floating-point one, rounded at every addition, and its
    last bits do depend on the order of its terms. *)
Theorem regression_loss_order_invariant
  (reorder : list index3 -> list index3) (self : DotNetLosses)
  (y_true y_pred : tensor4) :
  (forall l, Permutation l (reorder l)) ->
  req (regression_loss_with reorder self y_true y_pred)
      (regression_loss self y_true y_pred).
Proof.
  intro HP. unfold regression_loss, regression_loss_with.
  destruct (channel 0 y_true) as [yt|e]; [|reflexivity].
  destruct (channel 1 y_true) as [xt|e]; [|reflexivity].
  destruct (channel 0 y_pred) as [yp|e]; [|reflexivity].
  destruct (channel 1 y_pred) as [xp|e]; [|reflexivity].
  cbn [bind].
  destruct (logical_and _ _) as [near_y|e]; [|reflexivity].
  destruct (logical_and _ _) as [near_x|e]; [|reflexivity].
  cbn [bind].
  destruct (logical_and near_y near_x) as [near|e]; [|reflexivity].
  cbn [bind]. apply regression_loss_on_permutation, HP.
Qed.

Lemma regression_loss_order_invariant_witness :
  req (regression_loss_with (@rev index3) default_losses
         (mkTensor4 (1, 2, 2, 2)%nat (fun b y x c => Q_of_nat x))
         (mkTensor4 (1, 2, 2, 2)%nat (fun b y x c => Q_of_nat (y + c))))
      (regression_loss default_losses
         (mkTensor4 (1, 2, 2, 2)%nat (fun b y x c => Q_of_nat x))
         (mkTensor4 (1, 2, 2, 2)%nat (fun b y x c => Q_of_nat (y + c)))).
Proof.
  apply (regression_loss_order_invariant (@rev index3)).
  intro l. apply Permutation_rev.
Defined.

(** The loss as one sum over the selected pixels and one division. *)
Lemma regression_loss_closed_form (self : DotNetLosses)
  (y_true y_pred : tensor4) (B H W C C' : nat) :
  shape4 y_true = (B, H, W, C) -> (2 <= C)%nat ->
  shape4 y_pred = (B, H, W, C') -> (2 <= C')%nat ->
  ~ sigma self == 0 ->
  let selected := tf_where (near_pt_mask self y_true B H W) in
  exists v,
    regression_loss self y_true y_pred = Ok v /\
    v == K_sum (map (pixel_loss self y_true y_pred) selected)
         / Q_of_nat (Nat.max 1 (length selected)).
Proof.
  intros Ht HC Hp HC' Hs selected. unfold regression_loss.
  rewrite (regression_loss_with_eq _ self y_true y_pred B H W C B H W C')
    by assumption.
  rewrite regression_loss_on_eq. cbn [shape3]. fold selected.
  pose proof (tf_where_in_range (near_pt_mask self y_true B H W)) as Hin.
  unfold near_pt_mask in Hin. cbn [shape3] in Hin.
  fold (near_pt_mask self y_true B H W) in Hin. fold selected in Hin.
  rewrite Hin. cbn [andb].
  destruct (Qeq_bool (sigma self ^ 2) 0) eqn:E.
  { apply Qeq_bool_iff in E. apply Qsquare_nonzero in Hs. contradiction. }
  eexists. split; [reflexivity|].
  rewrite K_sum_app.
  rewrite <- (K_sum_map_plus
                (fun i => smooth_l1_pt (sigma self) (get3 _ i) (get3 _ i))
                (fun i => smooth_l1_pt (sigma self) (get3 _ i) (get3 _ i))).
  apply Qmult_comp; [|reflexivity].
  apply K_sum_map_ext_in. intros [[b y] x] _. reflexivity.
Qed.

(** C1.  On offset tensors of shape (batch, H, W, 2), [regression_loss]
    returns [S / max(1, n)]: the selected pixels are exactly those inside
    the tensor whose ground-truth offsets both lie in the interval from
    [-(0.5 + d_pixels)] (included) to [0.5 + d_pixels] (excluded), each
    listed once; [n] is their number and [S] the sum over them of the
    smooth-L1 loss of the y offsets plus that of the x offsets. *)
Theorem regression_loss_formula (self : DotNetLosses)
  (y_true y_pred : tensor4) (B H W : nat) :
  shape4 y_true = (B, H, W, 2%nat) -> shape4 y_pred = (B, H, W, 2%nat) ->
  ~ sigma self == 0 ->
  exists selected : list index3,
    NoDup selected /\
    (forall i, In i selected <-> inside B H W i /\ near_pt self y_true i) /\
    exists v,
      regression_loss self y_true y_pred = Ok v /\
      v == K_sum (map (pixel_loss self y_true y_pred) selected)
           / Q_of_nat (Nat.max 1 (length selected)).
Proof.
  intros Ht Hp Hs.
  exists (tf_where (near_pt_mask self y_true B H W)).
  split; [apply NoDup_tf_where|].
  split; [intro i; apply in_near_pt_indices|].
  apply (regression_loss_closed_form self y_true y_pred B H W 2 2);
    auto with arith.
Qed.

(** C3.  When no pixel of the ground truth is selected, [regression_loss]
    returns 0 itself: neither an error nor a non-finite value. *)
Theorem regression_loss_none_selected (self : DotNetLosses)
  (y_true y_pred : tensor4) (B H W B' H' W' : nat) :
  shape4 y_true = (B, H, W, 2%nat) -> shape4 y_pred = (B', H', W', 2%nat) ->
  ~ sigma self == 0 ->
  (forall i, inside B H W i -> ~ near_pt self y_true i) ->
  regression_loss self y_true y_pred = Ok 0.
Proof.
  intros Ht Hp Hs Hnone. unfold regression_loss.
  rewrite (regression_loss_with_eq _ self y_true y_pred B H W 2 B' H' W' 2)
    by auto with arith.
  assert (E : tf_where (near_pt_mask self y_true B H W) = []).
  { unfold tf_where. apply filter_none. intros i Hi.
    apply in_all_indices in Hi.
    destruct (get3 (near_pt_mask self y_true B H W) i) eqn:Hm; [|reflexivity].
    apply near_pt_mask_iff in Hm. exfalso. now apply (Hnone i). }
  rewrite E, regression_loss_on_eq. cbn [forallb andb].
  destruct (Qeq_bool (sigma self ^ 2) 0) eqn:Z; [|reflexivity].
  apply Qeq_bool_iff in Z. apply Qsquare_nonzero in Hs. contradiction.
Qed.

(** C9.  Two predictions of one shape that agree, in both channels, at
    every pixel selected from the ground truth give the same
    [regression_loss]: what is predicted elsewhere plays no part. *)
Theorem regression_loss_ignores_unselected (self : DotNetLosses)
  (y_true y_pred y_pred' : tensor4) (B H W C : nat) :
  shape4 y_true = (B, H, W, C) ->
  shape4 y_pred' = shape4 y_pred ->
  (forall b y x, inside B H W (b, y, x) -> near_pt self y_true (b, y, x) ->
     at4 y_pred b y x 0%nat == at4 y_pred' b y x 0%nat /\
     at4 y_pred b y x 1%nat == at4 y_pred' b y x 1%nat) ->
  req (regression_loss self y_true y_pred)
      (regression_loss self y_true y_pred').
Proof.
  intros Ht Hshape Hagree.
  destruct (shape4 y_pred) as [[[B' H'] W'] C'] eqn:Hp.
  destruct (le_lt_dec 2 C) as [HC | HC].
  2:{ unfold regression_loss, regression_loss_with, channel. rewrite Ht.
      destruct C as [|[|C]]; [reflexivity | reflexivity | lia]. }
  destruct (le_lt_dec 2 C') as [HC' | HC'].
  2:{ unfold regression_loss, regression_loss_with, channel.
      rewrite Ht, Hp, Hshape.
      destruct (0 <? C)%nat; [|reflexivity].
      destruct (1 <? C)%nat; [|reflexivity].
      destruct C' as [|[|C']]; [reflexivity | reflexivity | lia]. }
  unfold regression_loss.
  rewrite (regression_loss_with_eq _ self y_true y_pred B H W C B' H' W' C')
    by assumption.
  rewrite (regression_loss_with_eq _ self y_true y_pred' B H W C B' H' W' C')
    by assumption.
  rewrite !regression_loss_on_eq. cbn [shape3].
  match goal with
  | |- req (if ?c then _ else _) _ => destruct c; [|reflexivity]
  end.
  destruct (Qeq_bool (sigma self ^ 2) 0); [reflexivity|].
  unfold req. apply Qmult_comp; [|reflexivity].
  rewrite !K_sum_app.
  apply Qplus_comp; apply K_sum_map_ext_in; intros [[b y] x] Hi;
    apply in_near_pt_indices in Hi; destruct Hi as [Hin Hnear];
    destruct (Hagree b y x Hin Hnear) as [E0 E1]; unfold get3; cbn [at3].
  - now rewrite E0.
  - now rewrite E1.
Qed.

Lemma regression_loss_formula_witness :
  exists selected : list index3,
    NoDup selected /\
    (forall i, In i selected <->
               inside 1 3 3 i /\ near_pt default_losses centre_spot i) /\
    exists v,
      regression_loss default_losses centre_spot tenth_offsets = Ok v /\
      v == K_sum (map (pixel_loss default_losses centre_spot tenth_offsets)
                      selected)
           / Q_of_nat (Nat.max 1 (length selected)).
Proof.
  apply (regression_loss_formula default_losses centre_spot tenth_offsets 1 3 3).
  - reflexivity.
  - reflexivity.
  - intro E. discriminate E.
Defined.

Lemma regression_loss_none_selected_witness :
  regression_loss default_losses no_spot tenth_offsets = Ok 0.
Proof.
  apply (regression_loss_none_selected default_losses no_spot tenth_offsets
           1 3 3 1 3 3).
  - reflexivity.
  - reflexivity.
  - intro E. discriminate E.
  - intros [[b y] x] _ [[_ H] _]. vm_compute in H. discriminate H.
Defined.

Lemma regression_loss_ignores_unselected_witness :
  req (regression_loss default_losses centre_spot tenth_offsets)
      (regression_loss default_losses centre_spot tenth_at_centre).
Proof.
  apply (regression_loss_ignores_unselected default_losses centre_spot
           tenth_offsets tenth_at_centre 1 3 3 2).
  - reflexivity.
  - reflexivity.
  - intros b y x (Hb & Hy & Hx) [[_ Hnear] _].
    destruct y as [|[|[|y]]]; [| | |lia];
      destruct x as [|[|[|x]]]; try lia;
      try (vm_compute in Hnear; discriminate Hnear);
      split; reflexivity.
Defined.

(** The end-to-end example: only pixel (1, 1) is selected, and the loss is
    twice 0.5 * 9 * 0.1^2. *)
Example regression_loss_centre_spot :
  exists v, regression_loss default_losses centre_spot tenth_offsets = Ok v /\
            v == 9 # 100.
Proof.
  eexists. split; [vm_compute; reflexivity | reflexivity].
Qed.

(** A [sigma] of zero makes [smooth_l1] raise, selected pixels or not. *)
Example regression_loss_sigma_zero :
  regression_loss (mkDotNetLosses 2 0 2 false 1 0 0) no_spot tenth_offsets
  = Err ZeroDivisionError.
Proof. reflexivity. Qed.

(** ** The regularisation terms *)

Lemma mapM_ok {A B : Type} (f : A -> res B) (g : A -> B) (l : list A) :
  (forall a, In a l -> f a = Ok (g a)) -> mapM f l = Ok (map g l).
Proof.
  induction l as [|a l IH]; intro H; simpl; [reflexivity|].
  rewrite (H a) by now left. cbn [bind].
  rewrite IH by (intros b Hb; apply H; now right). reflexivity.
Qed.

Lemma K_sum3_nonneg (t : tensor3 Q) :
  (forall i, In i (all_indices (shape3 t)) -> 0 <= get3 t i) ->
  0 <= K_sum3 t.
Proof.
  intro H. unfold K_sum3. apply K_sum_nonneg, Forall_map, Forall_forall.
  exact H.
Qed.


Lemma shape3_eqb_true (B H W B' H' W' : nat) :
  B = B' -> H = H' -> W = W' -> shape3_eqb (B, H, W) (B', H', W') = true.
Proof. intros -> -> ->. apply shape3_eqb_refl. Qed.

Lemma strided_slice_padding (y_pred : tensor4) (B H W C y0 y1 x0 x1 : nat) :
  shape4 y_pred = (B, H, W, C) -> (2 <= C)%nat ->
  strided_slice y0 y1 x0 x1 1 (spatial_2d_padding y_pred ((1, 1), (1, 1))%nat)
  = Ok (mkTensor3 (B, 1 + H + 1 - y0 - y1, 1 + W + 1 - x0 - x1)%nat
          (fun b y x => padded_spot y_pred b (y + y0)%nat (x + x0)%nat)).
Proof.
  intros Hs HC. unfold strided_slice, spatial_2d_padding at 1.
  rewrite Hs. cbn [shape4].
  assert (E : (1 <? C)%nat = true) by (apply Nat.ltb_lt; lia).
  rewrite E. reflexivity.
Qed.

(** The interaction term in closed form. *)
Lemma inter_loss_eq (y_pred : tensor4) (B H W C : nat) :
  shape4 y_pred = (B, H, W, C) -> (2 <= C)%nat ->
  inter_loss y_pred =
  fdiv (K_sum3 (vertical_products y_pred B H W)
        + K_sum3 (horizontal_products y_pred B H W))
       (Q_of_nat (B * H * W)).
Proof.
  intros Hs HC. unfold inter_loss.
  rewrite !(strided_slice_padding y_pred B H W C) by assumption.
  cbn [bind]. unfold tzip. cbn [shape3 at3].
  rewrite !shape3_eqb_true by lia. cbn [bind]. rewrite Hs. reflexivity.
Qed.

Lemma padded_spot_inner (t : tensor4) (B H W C b y x : nat) :
  shape4 t = (B, H, W, C) -> (1 <= y <= H)%nat -> (1 <= x <= W)%nat ->
  padded_spot t b y x = at4 t b (y - 1)%nat (x - 1)%nat 1%nat.
Proof.
  intros Hs Hy Hx. unfold padded_spot, spatial_2d_padding. rewrite Hs.
  cbn [at4].
  assert (E1 : (y <? 1)%nat = false) by (apply Nat.ltb_ge; lia).
  assert (E2 : (1 + H <=? y)%nat = false) by (apply Nat.leb_gt; lia).
  assert (E3 : (x <? 1)%nat = false) by (apply Nat.ltb_ge; lia).
  assert (E4 : (1 + W <=? x)%nat = false) by (apply Nat.leb_gt; lia).
  rewrite E1, E2, E3, E4. reflexivity.
Qed.

Lemma padded_spot_cases (t : tensor4) (B H W C b y x : nat) :
  shape4 t = (B, H, W, C) ->
  padded_spot t b y x = 0 \/
  (exists y' x', (y' < H)%nat /\ (x' < W)%nat /\
                 padded_spot t b y x = at4 t b y' x' 1%nat).
Proof.
  intro Hs. unfold padded_spot, spatial_2d_padding. rewrite Hs. cbn [at4].
  destruct ((y <? 1)%nat || (1 + H <=? y)%nat
            || (x <? 1)%nat || (1 + W <=? x)%nat) eqn:E.
  - now left.
  - right. rewrite !orb_false_iff in E. destruct E as [[[E1 E2] E3] E4].
    apply Nat.ltb_ge in E1, E3. apply Nat.leb_gt in E2, E4.
    exists (y - 1)%nat, (x - 1)%nat. repeat split; lia.
Qed.

Lemma padded_spot_nonneg (t : tensor4) (B H W C b y x : nat) :
  shape4 t = (B, H, W, C) ->
  (forall b y x, (b < B)%nat -> (y < H)%nat -> (x < W)%nat ->
                 0 <= at4 t b y x 1%nat) ->
  (b < B)%nat -> 0 <= padded_spot t b y x.
Proof.
  intros Hs Hnn Hb.
  destruct (padded_spot_cases t B H W C b y x Hs)
    as [E | (y' & x' & Hy & Hx & E)]; rewrite E.
  - lra.
  - now apply Hnn.
Qed.


Lemma vertical_products_nonneg (t : tensor4) (B H W C : nat) (i : index3) :
  shape4 t = (B, H, W, C) ->
  (forall b y x, (b < B)%nat -> (y < H)%nat -> (x < W)%nat ->
                 0 <= at4 t b y x 1%nat) ->
  In i (all_indices (shape3 (vertical_products t B H W))) ->
  0 <= get3 (vertical_products t B H W) i.
Proof.
  intros Hs Hnn Hi. destruct i as [[b y] x].
  apply in_all_indices in Hi. destruct Hi as (Hb & _ & _).
  cbn [get3 vertical_products at3].
  apply Qmult_le_0_compat; now apply (padded_spot_nonneg t B H W C).
Qed.

Lemma horizontal_products_nonneg (t : tensor4) (B H W C : nat) (i : index3) :
  shape4 t = (B, H, W, C) ->
  (forall b y x, (b < B)%nat -> (y < H)%nat -> (x < W)%nat ->
                 0 <= at4 t b y x 1%nat) ->
  In i (all_indices (shape3 (horizontal_products t B H W))) ->
  0 <= get3 (horizontal_products t B H W) i.
Proof.
  intros Hs Hnn Hi. destruct i as [[b y] x].
  apply in_all_indices in Hi. destruct Hi as (Hb & _ & _).
  cbn [get3 horizontal_products at3].
  apply Qmult_le_0_compat; now apply (padded_spot_nonneg t B H W C).
Qed.

Lemma normalizer_pos (B H W : nat) :
  (0 < B)%nat -> (0 < H)%nat -> (0 < W)%nat -> 0 < Q_of_nat (B * H * W).
Proof.
  intros HB HH HW. apply Q_of_nat_pos. apply Nat.mul_pos_pos; [|assumption].
  now apply Nat.mul_pos_pos.
Qed.


(** The interaction term of a nonnegative spot channel, on a tensor that
    has at least one pixel. *)
Lemma inter_loss_nonneg (y_pred : tensor4) (B H W C : nat) :
  shape4 y_pred = (B, H, W, C) -> (2 <= C)%nat ->
  (0 < B)%nat -> (0 < H)%nat -> (0 < W)%nat ->
  (forall b y x, (b < B)%nat -> (y < H)%nat -> (x < W)%nat ->
                 0 <= at4 y_pred b y x 1%nat) ->
  exists v, inter_loss y_pred = Ok v /\ 0 <= v.
Proof.
  intros Hs HC HB HH HW Hnn.
  pose proof (normalizer_pos B H W HB HH HW) as Hn.
  pose proof (fun i => vertical_products_nonneg y_pred B H W C i Hs Hnn) as Hv.
  pose proof (fun i => horizontal_products_nonneg y_pred B H W C i Hs Hnn) as Hh.
  pose proof (K_sum3_nonneg _ Hv) as Hv0.
  pose proof (K_sum3_nonneg _ Hh) as Hh0.
  rewrite (inter_loss_eq y_pred B H W C Hs HC).
  rewrite fdiv_ok by lra. eexists. split; [reflexivity|].
  unfold Qdiv. apply Qmult_le_0_compat; [lra|].
  apply Qlt_le_weak. now apply Qinv_lt_0_compat.
Qed.




Lemma K_mean_12_eq (t : tensor4) (B H W C : nat) :
  shape4 t = (B, H, W, C) -> (0 < H)%nat -> (0 < W)%nat ->
  K_mean_12 (mkTensor3 (B, H, W) (fun b y x => at4 t b y x 1%nat))
  = Ok (map (spatial_mean t) (seq 0 B)).
Proof.
  intros Hs HH HW. unfold K_mean_12. cbn [shape3 at3].
  apply mapM_ok. intros b _. unfold spatial_mean. rewrite Hs.
  apply fdiv_ok. intro E. apply Q_of_nat_zero in E.
  pose proof (Nat.mul_pos_pos H W HH HW). lia.
Qed.

(** The count-mismatch term in closed form. *)
Lemma N_loss_eq (y_true y_pred : tensor4) (B H W C : nat) :
  shape4 y_true = (B, H, W, C) -> shape4 y_pred = (B, H, W, C) ->
  (2 <= C)%nat -> (0 < H)%nat -> (0 < W)%nat ->
  N_loss y_true y_pred =
  K_mean (map (fun b => (spatial_mean y_pred b - spatial_mean y_true b)
                        * (spatial_mean y_pred b - spatial_mean y_true b))
              (seq 0 B)).
Proof.
  intros Ht Hp HC HH HW. unfold N_loss.
  rewrite (channel_ok 1 y_pred B H W C Hp) by lia. cbn [bind].
  rewrite (K_mean_12_eq y_pred B H W C Hp HH HW). cbn [bind].
  rewrite (channel_ok 1 y_true B H W C Ht) by lia. cbn [bind].
  rewrite (K_mean_12_eq y_true B H W C Ht HH HW). cbn [bind].
  rewrite broadcast2_same_length by now rewrite !length_map.
  cbn [bind]. rewrite map2_map, map_map. reflexivity.
Qed.

Lemma K_mean_ok (l : list Q) :
  l <> [] -> K_mean l = Ok (K_sum l / Q_of_nat (length l)).
Proof.
  intro H. unfold K_mean. apply fdiv_ok. intro E.
  apply Q_of_nat_zero in E. apply length_zero_iff_nil in E. contradiction.
Qed.

Lemma seq_nonempty (B : nat) : (0 < B)%nat -> seq 0 B <> [].
Proof. destruct B; [lia | discriminate]. Qed.

(** C7, as amended.  On tensors of one shape with at least one image and
    at least one pixel per image, if for each image of the batch the
    spatial mean of the predicted spot-class channel equals that of the
    ground truth, the count-mismatch term is 0, whether or not the two
    channels agree pixel by pixel. *)
Theorem N_loss_equal_means (y_true y_pred : tensor4) (B H W C : nat) :
  shape4 y_true = (B, H, W, C) -> shape4 y_pred = (B, H, W, C) ->
  (2 <= C)%nat -> (0 < B)%nat -> (0 < H)%nat -> (0 < W)%nat ->
  (forall b, (b < B)%nat -> spatial_mean y_pred b == spatial_mean y_true b) ->
  exists v, N_loss y_true y_pred = Ok v /\ v == 0.
Proof.
  intros Ht Hp HC HB HH HW Hmeans.
  rewrite (N_loss_eq y_true y_pred B H W C) by assumption.
  rewrite K_mean_ok.
  2:{ intro E. apply map_eq_nil in E. now apply (seq_nonempty B HB). }
  eexists. split; [reflexivity|].
  rewrite length_map, length_seq.
  assert (E : K_sum (map (fun b =>
                (spatial_mean y_pred b - spatial_mean y_true b)
                * (spatial_mean y_pred b - spatial_mean y_true b))
              (seq 0 B)) == 0).
  { apply K_sum_zero, Forall_map, Forall_forall. intros b Hb.
    apply in_seq in Hb. rewrite (Hmeans b) by lia. ring. }
  rewrite E. field. pose proof (Q_of_nat_pos B HB). lra.
Qed.

Lemma N_loss_equal_means_witness :
  (exists b y x, ~ at4 half_everywhere b y x 1%nat
                   == at4 one_spot_onehot b y x 1%nat) /\
  exists v, N_loss one_spot_onehot half_everywhere = Ok v /\ v == 0.
Proof.
  split.
  - exists 0%nat, 0%nat, 0%nat. intro E. discriminate E.
  - apply (N_loss_equal_means one_spot_onehot half_everywhere 1 1 2 2).
    + reflexivity.
    + reflexivity.
    + lia.
    + lia.
    + lia.
    + lia.
    + intros b _. reflexivity.
Defined.

(** C7, as stated, fails on an empty batch: the premise holds of every
    image, there being none, yet the term is the mean of no number. *)
Lemma N_loss_empty_batch :
  shape4 empty_batch = (0, 1, 1, 2)%nat /\
  N_loss empty_batch empty_batch = Err NonFinite.
Proof. split; reflexivity. Qed.

(** ** The regularised loss without its penalties *)

Lemma no_penalty (mu beta n i : Q) (loss : list Q) :
  mu == 0 -> beta == 0 ->
  Forall2 Qeq (map (fun l => l + mu * n + beta * i) loss) loss.
Proof.
  intros Hmu Hbeta. induction loss as [|l loss IH]; simpl; constructor.
  - rewrite Hmu, Hbeta. ring.
  - exact IH.
Qed.

Lemma reql_refl (r : res (list Q)) : reql r r.
Proof.
  destruct r as [l|e]; simpl; [|reflexivity].
  induction l; constructor; [reflexivity | assumption].
Qed.

(** C4.  On a valid pair of classification tensors (one shape, at least
    one image, one pixel per image and two classes) and with [mu = 0] and
    [beta = 0], [classification_loss_regularized] returns what
    [classification_loss] returns, whatever the focal flag, [gamma] and
    [n_classes] are and whatever the two functions of deepcell compute. *)
Theorem classification_loss_regularized_no_penalty (losses : deepcell_losses)
  (self : DotNetLosses) (y_true y_pred : tensor4) (B H W C : nat) :
  shape4 y_true = (B, H, W, C) -> shape4 y_pred = (B, H, W, C) ->
  (2 <= C)%nat -> (0 < B)%nat -> (0 < H)%nat -> (0 < W)%nat ->
  mu self == 0 -> beta self == 0 ->
  reql (classification_loss_regularized losses self y_true y_pred)
       (classification_loss losses self y_true y_pred).
Proof.
  intros Ht Hp HC HB HH HW Hmu Hbeta.
  assert (HN : exists n, N_loss y_true y_pred = Ok n).
  { rewrite (N_loss_eq y_true y_pred B H W C) by assumption.
    rewrite K_mean_ok; [eexists; reflexivity|].
    intro E. apply map_eq_nil in E. now apply (seq_nonempty B HB). }
  assert (HI : exists i, inter_loss y_pred = Ok i).
  { rewrite (inter_loss_eq y_pred B H W C Hp HC).
    rewrite fdiv_ok; [eexists; reflexivity|].
    pose proof (normalizer_pos B H W HB HH HW). lra. }
  destruct HN as [n HN], HI as [i HI].
  unfold classification_loss_regularized, classification_loss.
  rewrite HN, HI.
  destruct (focal self).
  - destruct (weighted_focal_loss losses y_true y_pred (gamma self)
                (n_classes self)) as [loss|e]; cbn [tensor_value scalar_value bind].
    + now apply no_penalty.
    + destruct e; reflexivity.
  - destruct (weighted_categorical_crossentropy losses y_true y_pred
                (n_classes self)) as [loss|e]; cbn [tensor_value scalar_value bind].
    + destruct (K_mean loss) as [m|e]; cbn [tensor_value scalar_value bind].
      * now apply (no_penalty (mu self) (beta self) n i [m]).
      * destruct e; reflexivity.
    + destruct e; reflexivity.
Qed.

Lemma classification_loss_regularized_no_penalty_witness :
  reql (classification_loss_regularized sample_losses default_losses
          one_spot_onehot half_everywhere)
       (classification_loss sample_losses default_losses
          one_spot_onehot half_everywhere).
Proof.
  apply (classification_loss_regularized_no_penalty sample_losses
           default_losses one_spot_onehot half_everywhere 1 1 2 2).
  - reflexivity.
  - reflexivity.
  - lia.
  - lia.
  - lia.
  - lia.
  - reflexivity.
  - reflexivity.
Defined.

(** With penalties switched on, the two terms are added to every element
    of the base loss: here 1/4 + 1 * 0 + 2 * (1/8). *)
Example classification_loss_regularized_sample :
  reql (classification_loss_regularized sample_losses
          (mkDotNetLosses 2 3 2 false 1 1 2) one_spot_onehot half_everywhere)
       (Ok [1 # 2]).
Proof. vm_compute. repeat constructor. Qed.

(** On an empty batch both penalties are not numbers.  Added to the focal
    loss of deepcell, a tensor without any element, they leave it as it
    is; the mean of the cross-entropy is not a number to begin with. *)
Example classification_loss_regularized_empty_batch :
  classification_loss_regularized sample_losses
    (mkDotNetLosses 2 3 2 true 1 0 0) empty_batch empty_batch = Ok [] /\
  classification_loss_regularized sample_losses
    (mkDotNetLosses 2 3 2 false 1 0 0) empty_batch empty_batch
  = Err NonFinite.
Proof. split; reflexivity. Qed.

(** * Further properties *)

(** ** smooth_l1 as a robust loss *)

Lemma reciprocal_facts (s : Q) :
  0 < s -> 0 < 1 / s /\ s * (1 / s) == 1 /\ (1 # 2) / s == (1 # 2) * (1 / s).
Proof.
  intro Hs. split; [now apply Qinv_pos|].
  split; [field; lra | apply Qhalf_div].
Qed.

Ltac branch_cases s r r' :=
  let Hu := fresh "Hu" in
  let Hsu := fresh "Hsu" in
  let Hh := fresh "Hh" in
  match goal with
  | Hs : 0 < s |- _ => destruct (reciprocal_facts s Hs) as (Hu & Hsu & Hh)
  end;
  unfold where_branch, quadratic_branch, linear_branch;
  change (r ^ 2) with (r * r); try change (r' ^ 2) with (r' * r');
  set (h := (1 # 2) / s) in *; set (u := 1 / s) in *;
  destruct (Qlt_bool r u) eqn:E; destruct (Qlt_bool r' u) eqn:E';
  try apply Qlt_bool_iff in E; try apply Qlt_bool_iff in E';
  try apply Qlt_bool_false_iff in E; try apply Qlt_bool_false_iff in E'.

Lemma where_branch_mono (s r r' : Q) :
  0 < s -> 0 <= r -> r <= r' -> where_branch s r <= where_branch s r'.
Proof.
  intros Hs Hr Hrr'. branch_cases s r r'; first [lra | nra].
Qed.

Lemma smooth_l1_pt_equal (sigma t p : Q) :
  ~ sigma == 0 -> t == p -> smooth_l1_pt sigma t p == 0.
Proof.
  intros Hs E. apply Qsquare_pos in Hs. unfold smooth_l1_pt.
  assert (E0 : Qabs (t - p) == 0).
  { setoid_replace (t - p) with 0 by lra. reflexivity. }
  rewrite E0. unfold where_branch.
  pose proof (Qinv_pos _ Hs) as Hu. apply Qlt_bool_iff in Hu. rewrite Hu.
  unfold quadratic_branch. rewrite Qsquare. ring.
Qed.

Lemma map2_minus_swap (a b : list Q) :
  Forall2 (fun x y => x == - y) (map2 Qminus a b) (map2 Qminus b a).
Proof.
  revert b. induction a as [|x a IH]; intros [|y b]; simpl; constructor.
  - ring.
  - apply IH.
Qed.

Lemma broadcast2_minus_swap (a b : list Q) :
  match broadcast2 Qminus a b, broadcast2 Qminus b a with
  | Ok l, Ok l' => Forall2 (fun x y => x == - y) l l'
  | Err e, Err e' => e = e'
  | _, _ => False
  end.
Proof.
  unfold broadcast2. rewrite (Nat.eqb_sym (length b) (length a)).
  destruct (Nat.eqb (length a) (length b)) eqn:E.
  - apply map2_minus_swap.
  - destruct (Nat.eqb (length b) 1) eqn:Eb; destruct (Nat.eqb (length a) 1) eqn:Ea.
    + apply Nat.eqb_eq in Ea, Eb. apply Nat.eqb_neq in E. lia.
    + induction a as [|x a IH]; simpl; constructor; [ring|].
      clear E Ea IH. induction a as [|x' a IH]; simpl; constructor; [ring|].
      exact IH.
    + clear E Eb. induction b as [|y b IH]; simpl; constructor; [ring|].
      exact IH.
    + reflexivity.
Qed.

(** X1.  [smooth_l1] does not tell its two arguments apart: exchanging
    [y_true] and [y_pred] gives the same tensor, or the same error. *)
Theorem smooth_l1_symmetric (y_true y_pred : list Q) (sigma : Q) :
  reql (smooth_l1 y_true y_pred sigma) (smooth_l1 y_pred y_true sigma).
Proof.
  unfold smooth_l1.
  pose proof (broadcast2_minus_swap y_true y_pred) as H.
  destruct (broadcast2 Qminus y_true y_pred) as [l|e],
           (broadcast2 Qminus y_pred y_true) as [l'|e'];
    try contradiction; cbn [bind]; [|exact H].
  destruct (pydiv 1 (sigma ^ 2)) as [threshold|e]; cbn [bind]; [|reflexivity].
  destruct (pydiv (1 # 2) (sigma ^ 2)) as [half|e]; cbn [bind]; [|reflexivity].
  unfold reql. induction H as [|x y l l' Hxy _ IH]; simpl; constructor.
  - assert (E : Qabs x == Qabs y) by (rewrite Hxy; apply Qabs_opp).
    rewrite E. destruct (Qlt_bool (Qabs y) threshold); now rewrite ?Qsquare, E.
  - exact IH.
Qed.

Lemma Forall_map2_of_Forall2 {A B C : Type} (P : C -> Prop)
  (R : A -> B -> Prop) (f : A -> B -> C) (a : list A) (b : list B) :
  (forall x y, R x y -> P (f x y)) -> Forall2 R a b -> Forall P (map2 f a b).
Proof.
  intros H HR. induction HR as [|x y a b Hxy _ IH]; simpl; constructor.
  - now apply H.
  - exact IH.
Qed.

(** X2.  A prediction equal to the ground truth everywhere has no loss
    anywhere: with [sigma] not zero, [smooth_l1] returns a tensor of
    zeros of the shape of its arguments. *)
Theorem smooth_l1_zero_when_equal (y_true y_pred : list Q) (sigma : Q) :
  ~ sigma == 0 -> Forall2 Qeq y_true y_pred ->
  exists out,
    smooth_l1 y_true y_pred sigma = Ok out /\
    length out = length y_true /\
    Forall (fun e => e == 0) out.
Proof.
  intros Hs Heq.
  pose proof (Forall2_length Heq) as Hlen.
  exists (map2 (smooth_l1_pt sigma) y_true y_pred).
  split; [now apply smooth_l1_pointwise|].
  split; [now apply map2_length|].
  apply (Forall_map2_of_Forall2 _ Qeq); [|assumption].
  intros t p. now apply smooth_l1_pt_equal.
Qed.

Lemma smooth_l1_zero_when_equal_witness :
  exists out,
    smooth_l1 [1; 2 # 3] [1; 4 # 6] 3 = Ok out /\
    length out = 2%nat /\
    Forall (fun e => e == 0) out.
Proof.
  apply (smooth_l1_zero_when_equal [1; 2 # 3] [1; 4 # 6] 3).
  - intro E. discriminate E.
  - repeat constructor.
Defined.

(** X5.  Within one call, a larger absolute error never gets a smaller
    loss: the loss is monotone in [|y_true - y_pred|]. *)
Theorem smooth_l1_monotone (y_true y_pred : list Q) (sigma : Q) :
  length y_true = length y_pred -> ~ sigma == 0 ->
  exists out,
    smooth_l1 y_true y_pred sigma = Ok out /\
    forall i j t p t' p' e e',
      nth_error y_true i = Some t -> nth_error y_pred i = Some p ->
      nth_error y_true j = Some t' -> nth_error y_pred j = Some p' ->
      nth_error out i = Some e -> nth_error out j = Some e' ->
      Qabs (t - p) <= Qabs (t' - p') -> e <= e'.
Proof.
  intros Hlen Hs. exists (map2 (smooth_l1_pt sigma) y_true y_pred).
  split; [now apply smooth_l1_pointwise|].
  intros i j t p t' p' e e' Ht Hp Ht' Hp' He He' Hle.
  rewrite (map2_nth_error _ _ _ _ _ _ Ht Hp) in He. injection He as <-.
  rewrite (map2_nth_error _ _ _ _ _ _ Ht' Hp') in He'. injection He' as <-.
  apply Qsquare_pos in Hs. unfold smooth_l1_pt.
  apply where_branch_mono; [assumption | apply Qabs_nonneg | assumption].
Qed.

Lemma smooth_l1_monotone_witness :
  exists out,
    smooth_l1 [0; 1] [1 # 10; 3] 3 = Ok out /\
    forall i j t p t' p' e e',
      nth_error [0; 1] i = Some t -> nth_error [1 # 10; 3] i = Some p ->
      nth_error [0; 1] j = Some t' -> nth_error [1 # 10; 3] j = Some p' ->
      nth_error out i = Some e -> nth_error out j = Some e' ->
      Qabs (t - p) <= Qabs (t' - p') -> e <= e'.
Proof.
  apply (smooth_l1_monotone [0; 1] [1 # 10; 3] 3).
  - reflexivity.
  - intro E. discriminate E.
Defined.

(** ** regression_loss as a measure of error *)

Lemma pixel_loss_nonneg (self : DotNetLosses) (y_true y_pred : tensor4)
  (i : index3) :
  ~ sigma self == 0 -> 0 <= pixel_loss self y_true y_pred i.
Proof.
  intro Hs. destruct i as [[b y] x]. unfold pixel_loss.
  pose proof (smooth_l1_pt_nonneg (sigma self) (at4 y_true b y x 0%nat)
                (at4 y_pred b y x 0%nat) Hs).
  pose proof (smooth_l1_pt_nonneg (sigma self) (at4 y_true b y x 1%nat)
                (at4 y_pred b y x 1%nat) Hs).
  lra.
Qed.

Lemma pixel_loss_exact (self : DotNetLosses) (y_true y_pred : tensor4)
  (b y x : nat) :
  ~ sigma self == 0 ->
  at4 y_pred b y x 0%nat == at4 y_true b y x 0%nat ->
  at4 y_pred b y x 1%nat == at4 y_true b y x 1%nat ->
  pixel_loss self y_true y_pred (b, y, x) == 0.
Proof.
  intros Hs E0 E1. unfold pixel_loss.
  rewrite (smooth_l1_pt_equal _ _ _ Hs (Qeq_sym _ _ E0)).
  rewrite (smooth_l1_pt_equal _ _ _ Hs (Qeq_sym _ _ E1)). ring.
Qed.

Lemma normalizer_ge_1 (n : nat) : 0 < Q_of_nat (Nat.max 1 n).
Proof. apply Q_of_nat_pos. lia. Qed.

Lemma Qdiv_nonneg (a b : Q) : 0 <= a -> 0 < b -> 0 <= a / b.
Proof.
  intros Ha Hb. unfold Qdiv. apply Qmult_le_0_compat; [assumption|].
  apply Qlt_le_weak. now apply Qinv_lt_0_compat.
Qed.

(** X6.  On offset tensors of one shape (batch, H, W, 2) and with [sigma]
    not zero, [regression_loss] succeeds and is never negative. *)
Theorem regression_loss_nonneg (self : DotNetLosses)
  (y_true y_pred : tensor4) (B H W : nat) :
  shape4 y_true = (B, H, W, 2%nat) -> shape4 y_pred = (B, H, W, 2%nat) ->
  ~ sigma self == 0 ->
  exists v, regression_loss self y_true y_pred = Ok v /\ 0 <= v.
Proof.
  intros Ht Hp Hs.
  destruct (regression_loss_closed_form self y_true y_pred B H W 2 2 Ht
              (le_n 2) Hp (le_n 2) Hs) as (v & Hv & E).
  exists v. split; [assumption|]. rewrite E.
  apply Qdiv_nonneg; [|apply normalizer_ge_1].
  apply K_sum_nonneg, Forall_map, Forall_forall.
  intros i _. now apply pixel_loss_nonneg.
Qed.

Lemma regression_loss_nonneg_witness :
  exists v,
    regression_loss default_losses centre_spot tenth_offsets = Ok v /\ 0 <= v.
Proof.
  apply (regression_loss_nonneg default_losses centre_spot tenth_offsets 1 3 3).
  - reflexivity.
  - reflexivity.
  - intro E. discriminate E.
Defined.

(** X7.  On such tensors a prediction that equals the ground truth, in
    both offsets, at every selected pixel has a loss of zero, whatever it
    predicts elsewhere. *)
Theorem regression_loss_zero_when_exact (self : DotNetLosses)
  (y_true y_pred : tensor4) (B H W : nat) :
  shape4 y_true = (B, H, W, 2%nat) -> shape4 y_pred = (B, H, W, 2%nat) ->
  ~ sigma self == 0 ->
  (forall b y x,
     inside B H W (b, y, x) -> near_pt self y_true (b, y, x) ->
     at4 y_pred b y x 0%nat == at4 y_true b y x 0%nat /\
     at4 y_pred b y x 1%nat == at4 y_true b y x 1%nat) ->
  exists v, regression_loss self y_true y_pred = Ok v /\ v == 0.
Proof.
  intros Ht Hp Hs Hexact.
  destruct (regression_loss_closed_form self y_true y_pred B H W 2 2 Ht
              (le_n 2) Hp (le_n 2) Hs) as (v & Hv & E).
  exists v. split; [assumption|]. rewrite E.
  assert (Z : K_sum (map (pixel_loss self y_true y_pred)
                (tf_where (near_pt_mask self y_true B H W))) == 0).
  { apply K_sum_zero, Forall_map, Forall_forall. intros [[b y] x] Hi.
    apply in_near_pt_indices in Hi. destruct Hi as [Hin Hnear].
    destruct (Hexact b y x Hin Hnear) as [E0 E1].
    now apply pixel_loss_exact. }
  rewrite Z. pose proof (normalizer_ge_1
    (length (tf_where (near_pt_mask self y_true B H W)))). field. lra.
Qed.

Lemma regression_loss_zero_when_exact_witness :
  exists v,
    regression_loss default_losses centre_spot
      (mkTensor4 (1, 3, 3, 2)%nat (fun b y x c => Q_of_nat (x + y) - 2))
    = Ok v /\ v == 0.
Proof.
  apply (regression_loss_zero_when_exact default_losses centre_spot
           (mkTensor4 (1, 3, 3, 2)%nat (fun b y x c => Q_of_nat (x + y) - 2))
           1 3 3).
  - reflexivity.
  - reflexivity.
  - intro E. discriminate E.
  - intros b y x (Hb & Hy & Hx) [[_ Hnear] _].
    destruct y as [|[|[|y]]]; [| | |lia];
      destruct x as [|[|[|x]]]; try lia;
      try (vm_compute in Hnear; discriminate Hnear);
      split; reflexivity.
Defined.

(** X8.  With [sigma = 0] the method raises ZeroDivisionError on every
    pair of two-channel tensors of one spatial shape, whether or not any
    pixel is selected: the division in [smooth_l1] is made before any
    element is looked at. *)
Theorem regression_loss_zero_sigma_raises (self : DotNetLosses)
  (y_true y_pred : tensor4) (B H W C C' : nat) :
  shape4 y_true = (B, H, W, C) -> (2 <= C)%nat ->
  shape4 y_pred = (B, H, W, C') -> (2 <= C')%nat ->
  sigma self == 0 ->
  regression_loss self y_true y_pred = Err ZeroDivisionError.
Proof.
  intros Ht HC Hp HC' Hs. unfold regression_loss.
  rewrite (regression_loss_with_eq _ self y_true y_pred B H W C B H W C')
    by assumption.
  rewrite regression_loss_on_eq. cbn [shape3].
  pose proof (tf_where_in_range (near_pt_mask self y_true B H W)) as Hin.
  unfold near_pt_mask in Hin at 1. cbn [shape3] in Hin.
  rewrite Hin. cbn [andb].
  apply Qsquare_zero, Qeq_bool_iff in Hs. now rewrite Hs.
Qed.

Lemma regression_loss_zero_sigma_raises_witness :
  regression_loss (mkDotNetLosses 2 0 2 false 1 0 0) centre_spot tenth_offsets
  = Err ZeroDivisionError.
Proof.
  apply (regression_loss_zero_sigma_raises (mkDotNetLosses 2 0 2 false 1 0 0)
           centre_spot tenth_offsets 1 3 3 2 2).
  - reflexivity.
  - lia.
  - reflexivity.
  - lia.
  - reflexivity.
Defined.

(** ** The two penalty terms *)

Lemma fdiv_zero (a : Q) : fdiv a (Q_of_nat 0) = Err NonFinite.
Proof. reflexivity. Qed.

Lemma req_fdiv (a a' b : Q) : a == a' -> req (fdiv a b) (fdiv a' b).
Proof.
  intro E. unfold fdiv. destruct (Qeq_bool b 0); simpl; [reflexivity|].
  now rewrite E.
Qed.

Lemma square_nonneg (a : Q) : 0 <= a * a.
Proof.
  destruct (Qlt_le_dec a 0).
  - setoid_replace (a * a) with ((- a) * (- a)) by ring.
    apply Qmult_le_0_compat; lra.
  - now apply Qmult_le_0_compat.
Qed.

(** The count-mismatch term of a non-empty pair is a number, and not a
    negative one. *)
Lemma N_loss_value (y_true y_pred : tensor4) (B H W C : nat) :
  shape4 y_true = (B, H, W, C) -> shape4 y_pred = (B, H, W, C) ->
  (2 <= C)%nat -> (0 < B)%nat -> (0 < H)%nat -> (0 < W)%nat ->
  exists v, N_loss y_true y_pred = Ok v /\ 0 <= v.
Proof.
  intros Ht Hp HC HB HH HW.
  rewrite (N_loss_eq y_true y_pred B H W C) by assumption.
  rewrite K_mean_ok.
  2:{ intro E. apply map_eq_nil in E. now apply (seq_nonempty B HB). }
  eexists. split; [reflexivity|].
  rewrite length_map, length_seq.
  apply Qdiv_nonneg; [|now apply Q_of_nat_pos].
  apply K_sum_nonneg, Forall_map, Forall_forall.
  intros b _. apply square_nonneg.
Qed.

(** X9.  On a non-empty pair of classification tensors of one shape the
    count-mismatch term is a number and is never negative, whatever the
    values of the two tensors. *)
Theorem N_loss_nonneg (y_true y_pred : tensor4) (B H W C : nat) :
  shape4 y_true = (B, H, W, C) -> shape4 y_pred = (B, H, W, C) ->
  (2 <= C)%nat -> (0 < B)%nat -> (0 < H)%nat -> (0 < W)%nat ->
  exists v, N_loss y_true y_pred = Ok v /\ 0 <= v.
Proof. apply N_loss_value. Qed.

Lemma N_loss_nonneg_witness :
  exists v, N_loss one_spot_onehot zero_prediction = Ok v /\ 0 <= v.
Proof.
  apply (N_loss_nonneg one_spot_onehot zero_prediction 1 1 2 2);
    first [reflexivity | lia].
Defined.

(** The count-mismatch term of an empty pair. *)
Lemma N_loss_empty (y_true y_pred : tensor4) (B H W C : nat) :
  shape4 y_true = (B, H, W, C) -> shape4 y_pred = (B, H, W, C) ->
  (2 <= C)%nat -> (B * H * W = 0)%nat ->
  N_loss y_true y_pred = Err NonFinite.
Proof.
  intros Ht Hp HC Hz. unfold N_loss.
  rewrite (channel_ok 1 y_pred B H W C Hp) by lia. cbn [bind].
  unfold K_mean_12 at 1. cbn [shape3 at3].
  destruct B as [|B].
  - cbn [seq mapM bind].
    rewrite (channel_ok 1 y_true 0 H W C Ht) by lia. reflexivity.
  - assert (E : (H * W = 0)%nat) by nia.
    rewrite E. cbn [seq mapM]. rewrite fdiv_zero. reflexivity.
Qed.

(** X10.  On an empty pair of classification tensors (batch, height or
    width zero) the count-mismatch term is not a number: the means it is
    made of are means of nothing. *)
Theorem N_loss_empty_not_finite (y_true y_pred : tensor4) (B H W C : nat) :
  shape4 y_true = (B, H, W, C) -> shape4 y_pred = (B, H, W, C) ->
  (2 <= C)%nat -> (B * H * W = 0)%nat ->
  N_loss y_true y_pred = Err NonFinite.
Proof. apply N_loss_empty. Qed.

Lemma N_loss_empty_not_finite_witness :
  N_loss (mkTensor4 (2, 0, 3, 2)%nat (fun b y x c => 1))
         (mkTensor4 (2, 0, 3, 2)%nat (fun b y x c => 0))
  = Err NonFinite.
Proof.
  apply (N_loss_empty_not_finite _ _ 2 0 3 2); first [reflexivity | lia].
Defined.

(** X11.  On tensors of one shape the count-mismatch term does not tell
    the prediction from the ground truth: exchanging them gives the same
    outcome. *)
Theorem N_loss_symmetric (y_true y_pred : tensor4) (B H W C : nat) :
  shape4 y_true = (B, H, W, C) -> shape4 y_pred = (B, H, W, C) ->
  (2 <= C)%nat ->
  req (N_loss y_true y_pred) (N_loss y_pred y_true).
Proof.
  intros Ht Hp HC.
  destruct (Nat.eq_dec (B * H * W) 0) as [Hz | Hnz].
  - rewrite (N_loss_empty y_true y_pred B H W C) by assumption.
    rewrite (N_loss_empty y_pred y_true B H W C) by assumption.
    reflexivity.
  - assert (HH : (0 < H)%nat) by (destruct H; [lia | lia]).
    assert (HW : (0 < W)%nat) by (destruct W; [lia | lia]).
    rewrite (N_loss_eq y_true y_pred B H W C) by assumption.
    rewrite (N_loss_eq y_pred y_true B H W C) by assumption.
    unfold K_mean. rewrite !length_map. apply req_fdiv.
    apply K_sum_map_ext_in. intros b _. ring.
Qed.

Lemma N_loss_symmetric_witness :
  req (N_loss one_spot_onehot zero_prediction)
      (N_loss zero_prediction one_spot_onehot).
Proof.
  apply (N_loss_symmetric one_spot_onehot zero_prediction 1 1 2 2);
    first [reflexivity | lia].
Defined.

(** X12.  On an empty prediction (batch, height or width zero) the
    interaction term is not a number: its normalizer is zero. *)
Theorem inter_loss_empty_not_finite (y_pred : tensor4) (B H W C : nat) :
  shape4 y_pred = (B, H, W, C) -> (2 <= C)%nat -> (B * H * W = 0)%nat ->
  inter_loss y_pred = Err NonFinite.
Proof.
  intros Hp HC Hz. rewrite (inter_loss_eq y_pred B H W C Hp HC), Hz.
  apply fdiv_zero.
Qed.

Lemma inter_loss_empty_not_finite_witness :
  inter_loss (mkTensor4 (2, 0, 3, 2)%nat (fun b y x c => 1)) = Err NonFinite.
Proof.
  apply (inter_loss_empty_not_finite _ 2 0 3 2); first [reflexivity | lia].
Defined.

(** ** The interaction term without its padding *)

Lemma K_sum_flat_map {A B : Type} (g : B -> Q) (f : A -> list B) (l : list A) :
  K_sum (map g (flat_map f l)) == K_sum (map (fun a => K_sum (map g (f a))) l).
Proof.
  induction l as [|a l IH]; simpl; [reflexivity|].
  now rewrite map_app, K_sum_app, IH.
Qed.

Lemma K_sum_all_indices (g : index3 -> Q) (B H W : nat) :
  K_sum (map g (all_indices (B, H, W)))
  == sum_n B (fun b => sum_n H (fun y => sum_n W (fun x => g (b, y, x)))).
Proof.
  unfold all_indices, sum_n. rewrite K_sum_flat_map.
  apply K_sum_map_ext_in. intros b _. rewrite K_sum_flat_map.
  apply K_sum_map_ext_in. intros y _. now rewrite map_map.
Qed.

Lemma sum_n_ext (n : nat) (f g : nat -> Q) :
  (forall i, (i < n)%nat -> f i == g i) -> sum_n n f == sum_n n g.
Proof.
  intro H. unfold sum_n. apply K_sum_map_ext_in.
  intros i Hi. apply in_seq in Hi. apply H. lia.
Qed.

Lemma sum_n_zero (n : nat) (f : nat -> Q) :
  (forall i, (i < n)%nat -> f i == 0) -> sum_n n f == 0.
Proof.
  intro H. unfold sum_n. apply K_sum_zero, Forall_map, Forall_forall.
  intros i Hi. apply in_seq in Hi. apply H. lia.
Qed.

Lemma sum_n_first (n : nat) (f : nat -> Q) :
  sum_n (S n) f == f 0%nat + sum_n n (fun i => f (S i)).
Proof.
  unfold sum_n. cbn [seq map K_sum fold_right].
  now rewrite <- seq_shift, map_map.
Qed.

Lemma sum_n_last (n : nat) (f : nat -> Q) :
  sum_n (S n) f == sum_n n f + f n.
Proof.
  unfold sum_n. rewrite seq_S, map_app, K_sum_app. simpl. ring.
Qed.

(** A sum whose first and last terms vanish, over [n + 2] and over
    [n + 1] terms. *)
Lemma sum_n_trim_both (n : nat) (f : nat -> Q) :
  f 0%nat == 0 -> f (S n) == 0 ->
  sum_n (S (S n)) f == sum_n n (fun i => f (S i)).
Proof.
  intros H0 Hn. rewrite sum_n_first, sum_n_last, H0, Hn. ring.
Qed.

Lemma sum_n_trim_pair (n : nat) (f : nat -> Q) :
  f 0%nat == 0 -> f n == 0 ->
  sum_n (S n) f == sum_n (n - 1) (fun i => f (S i)).
Proof.
  intros H0 Hn. destruct n as [|m].
  - rewrite sum_n_first, H0. unfold sum_n. simpl. ring.
  - rewrite sum_n_first, sum_n_last, H0, Hn.
    replace (S m - 1)%nat with m by lia. ring.
Qed.

Lemma padded_spot_border (t : tensor4) (B H W C b y x : nat) :
  shape4 t = (B, H, W, C) ->
  (y = 0 \/ H < y \/ x = 0 \/ W < x)%nat ->
  padded_spot t b y x = 0.
Proof.
  intros Hs Hb. unfold padded_spot, spatial_2d_padding. rewrite Hs.
  cbn [at4].
  destruct ((y <? 1)%nat || (1 + H <=? y)%nat
            || (x <? 1)%nat || (1 + W <=? x)%nat) eqn:E; [reflexivity|].
  rewrite !orb_false_iff in E. destruct E as [[[E1 E2] E3] E4].
  apply Nat.ltb_ge in E1, E3. apply Nat.leb_gt in E2, E4. lia.
Qed.

Lemma vertical_products_unpadded (t : tensor4) (B H W C : nat) :
  shape4 t = (B, H, W, C) ->
  K_sum3 (vertical_products t B H W)
  == K_sum (map (fun '(b, y, x) =>
                   at4 t b (y + 1)%nat x 1%nat * at4 t b y x 1%nat)
                (all_indices (B, H - 1, W)%nat)).
Proof.
  intro Hs. unfold K_sum3, vertical_products. cbn [shape3].
  replace (1 + H + 1 - 1 - 0)%nat with (S H) by lia.
  replace (1 + W + 1 - 0 - 0)%nat with (S (S W)) by lia.
  rewrite !K_sum_all_indices. cbn [get3 at3].
  apply sum_n_ext. intros b _.
  rewrite sum_n_trim_pair.
  - apply sum_n_ext. intros y Hy.
    rewrite sum_n_trim_both.
    + apply sum_n_ext. intros x Hx.
      rewrite !(padded_spot_inner t B H W C) by (assumption || lia).
      replace (S y + 1 - 1)%nat with (y + 1)%nat by lia.
      replace (S x + 0 - 1)%nat with x by lia.
      replace (S y + 0 - 1)%nat with y by lia.
      reflexivity.
    + rewrite (padded_spot_border t B H W C b (S y + 0) (0 + 0)) by (auto; lia).
      ring.
    + rewrite (padded_spot_border t B H W C b (S y + 0) (S W + 0))
        by (auto; lia).
      ring.
  - apply sum_n_zero. intros x _.
    rewrite (padded_spot_border t B H W C b (0 + 0) (x + 0)) by (auto; lia).
    ring.
  - apply sum_n_zero. intros x _.
    rewrite (padded_spot_border t B H W C b (H + 1) (x + 0)) by (auto; lia).
    ring.
Qed.

Lemma horizontal_products_unpadded (t : tensor4) (B H W C : nat) :
  shape4 t = (B, H, W, C) ->
  K_sum3 (horizontal_products t B H W)
  == K_sum (map (fun '(b, y, x) =>
                   at4 t b y (x + 1)%nat 1%nat * at4 t b y x 1%nat)
                (all_indices (B, H, W - 1)%nat)).
Proof.
  intro Hs. unfold K_sum3, horizontal_products. cbn [shape3].
  replace (1 + H + 1 - 0 - 0)%nat with (S (S H)) by lia.
  replace (1 + W + 1 - 1 - 0)%nat with (S W) by lia.
  rewrite !K_sum_all_indices. cbn [get3 at3].
  apply sum_n_ext. intros b _.
  rewrite sum_n_trim_both.
  - apply sum_n_ext. intros y Hy.
    rewrite sum_n_trim_pair.
    + apply sum_n_ext. intros x Hx.
      rewrite !(padded_spot_inner t B H W C) by (assumption || lia).
      replace (S y + 0 - 1)%nat with y by lia.
      replace (S x + 1 - 1)%nat with (x + 1)%nat by lia.
      replace (S x + 0 - 1)%nat with x by lia.
      reflexivity.
    + rewrite (padded_spot_border t B H W C b (S y + 0) (0 + 0)) by (auto; lia).
      ring.
    + rewrite (padded_spot_border t B H W C b (S y + 0) (W + 1)) by (auto; lia).
      ring.
  - apply sum_n_zero. intros x _.
    rewrite (padded_spot_border t B H W C b (0 + 0) (x + 0)) by (auto; lia).
    ring.
  - apply sum_n_zero. intros x _.
    rewrite (padded_spot_border t B H W C b (S H + 0) (x + 0)) by (auto; lia).
    ring.
Qed.

Lemma inter_loss_value (y_pred : tensor4) (B H W C : nat) :
  shape4 y_pred = (B, H, W, C) -> (2 <= C)%nat ->
  (0 < B)%nat -> (0 < H)%nat -> (0 < W)%nat ->
  exists v,
    inter_loss y_pred = Ok v /\
    v == neighbour_products y_pred / Q_of_nat (B * H * W).
Proof.
  intros Hs HC HB HH HW.
  pose proof (normalizer_pos B H W HB HH HW) as Hn.
  rewrite (inter_loss_eq y_pred B H W C Hs HC), fdiv_ok by lra.
  eexists. split; [reflexivity|].
  unfold neighbour_products. rewrite Hs.
  rewrite (vertical_products_unpadded y_pred B H W C Hs).
  rewrite (horizontal_products_unpadded y_pred B H W C Hs).
  reflexivity.
Qed.

(** X13.  On a non-empty prediction the zero padding adds nothing to the
    interaction term: it is the sum, over the pairs of vertically adjacent
    pixels and the pairs of horizontally adjacent pixels of each image
    (each pair once, no wrap-around), of the product of their spot-class
    values, divided by batch * H * W. *)
Theorem inter_loss_unpadded (y_pred : tensor4) (B H W C : nat) :
  shape4 y_pred = (B, H, W, C) -> (2 <= C)%nat ->
  (0 < B)%nat -> (0 < H)%nat -> (0 < W)%nat ->
  exists v,
    inter_loss y_pred = Ok v /\
    v == neighbour_products y_pred / Q_of_nat (B * H * W).
Proof. apply inter_loss_value. Qed.

Lemma inter_loss_unpadded_witness :
  exists v,
    inter_loss half_everywhere = Ok v /\
    v == neighbour_products half_everywhere / Q_of_nat (1 * 1 * 2).
Proof.
  apply (inter_loss_unpadded half_everywhere 1 1 2 2);
    first [reflexivity | lia].
Defined.

Lemma product_zero_or_both_positive (a b : Q) :
  0 <= a -> 0 <= b -> a * b == 0 \/ (0 < a /\ 0 < b).
Proof.
  intros Ha Hb.
  destruct (Qlt_le_dec 0 a) as [Ha' | Ha']; [|left].
  - destruct (Qlt_le_dec 0 b) as [Hb' | Hb']; [now right | left].
    assert (E : b == 0) by lra. rewrite E. ring.
  - assert (E : a == 0) by lra. rewrite E. ring.
Qed.

Lemma neighbour_products_isolated (t : tensor4) (B H W C : nat) :
  shape4 t = (B, H, W, C) ->
  (forall b y x, (b < B)%nat -> (y < H)%nat -> (x < W)%nat ->
                 0 <= at4 t b y x 1%nat) ->
  ~ adjacent_positive t ->
  neighbour_products t == 0.
Proof.
  intros Hs Hnn Hnone. unfold adjacent_positive in Hnone.
  unfold neighbour_products. rewrite Hs in *.
  assert (Ev : K_sum (map (fun '(b, y, x) =>
                 at4 t b (y + 1)%nat x 1%nat * at4 t b y x 1%nat)
               (all_indices (B, H - 1, W)%nat)) == 0).
  { apply K_sum_zero, Forall_map, Forall_forall. intros [[b y] x] Hi.
    apply in_all_indices in Hi. destruct Hi as (Hb & Hy & Hx).
    destruct (product_zero_or_both_positive
                (at4 t b (y + 1)%nat x 1%nat) (at4 t b y x 1%nat))
      as [E | [P1 P0]]; [apply Hnn; lia | apply Hnn; lia | exact E |].
    exfalso. apply Hnone. exists b, y, x. split; [assumption|]. left.
    repeat split; try assumption; lia. }
  assert (Eh : K_sum (map (fun '(b, y, x) =>
                 at4 t b y (x + 1)%nat 1%nat * at4 t b y x 1%nat)
               (all_indices (B, H, W - 1)%nat)) == 0).
  { apply K_sum_zero, Forall_map, Forall_forall. intros [[b y] x] Hi.
    apply in_all_indices in Hi. destruct Hi as (Hb & Hy & Hx).
    destruct (product_zero_or_both_positive
                (at4 t b y (x + 1)%nat 1%nat) (at4 t b y x 1%nat))
      as [E | [P1 P0]]; [apply Hnn; lia | apply Hnn; lia | exact E |].
    exfalso. apply Hnone. exists b, y, x. split; [assumption|]. right.
    repeat split; try assumption; lia. }
  rewrite Ev, Eh. ring.
Qed.

(** X14.  On a non-empty prediction whose spot-class channel is nowhere
    negative, spots that keep apart cost nothing: when no two adjacent
    pixels of an image both have a positive spot-class value, the
    interaction term is zero. *)
Theorem inter_loss_zero_when_isolated (y_pred : tensor4) (B H W C : nat) :
  shape4 y_pred = (B, H, W, C) -> (2 <= C)%nat ->
  (0 < B)%nat -> (0 < H)%nat -> (0 < W)%nat ->
  (forall b y x, (b < B)%nat -> (y < H)%nat -> (x < W)%nat ->
                 0 <= at4 y_pred b y x 1%nat) ->
  ~ adjacent_positive y_pred ->
  exists v, inter_loss y_pred = Ok v /\ v == 0.
Proof.
  intros Hs HC HB HH HW Hnn Hnone.
  destruct (inter_loss_value y_pred B H W C Hs HC HB HH HW) as (v & Hv & E).
  pose proof (normalizer_pos B H W HB HH HW) as Hn.
  exists v. split; [assumption|]. rewrite E.
  rewrite (neighbour_products_isolated y_pred B H W C Hs Hnn Hnone).
  field. lra.
Qed.

Lemma inter_loss_zero_when_isolated_witness :
  exists v, inter_loss one_spot_onehot = Ok v /\ v == 0.
Proof.
  apply (inter_loss_zero_when_isolated one_spot_onehot 1 1 2 2);
    try first [reflexivity | lia].
  - intros b y x _ _ _. cbn [at4 one_spot_onehot].
    destruct (Nat.eqb x 1); discriminate.
  - intros (b & y & x & _ & [(Hy & _) | (_ & Hx & P0 & P1)]); [lia|].
    destruct x as [|x]; [|lia]. vm_compute in P0. discriminate P0.
Defined.

(** ** The regularised loss against the plain one *)

Lemma penalty_raises (mu beta n i : Q) (loss : list Q) :
  0 <= mu -> 0 <= beta -> 0 <= n -> 0 <= i ->
  Forall2 Qle loss (map (fun l => l + mu * n + beta * i) loss).
Proof.
  intros Hmu Hbeta Hn Hi.
  pose proof (Qmult_le_0_compat _ _ Hmu Hn).
  pose proof (Qmult_le_0_compat _ _ Hbeta Hi).
  induction loss as [|l loss IH]; simpl; constructor; [lra | exact IH].
Qed.

(** X15.  On a non-empty pair of one shape, with weights [mu] and [beta]
    that are not negative and a prediction whose spot-class channel is
    nowhere negative: when [classification_loss] returns a loss,
    [classification_loss_regularized] returns one of the same shape that
    is nowhere smaller. *)
Theorem classification_loss_regularized_not_smaller
  (losses : deepcell_losses) (self : DotNetLosses)
  (y_true y_pred : tensor4) (B H W C : nat) (base : list Q) :
  shape4 y_true = (B, H, W, C) -> shape4 y_pred = (B, H, W, C) ->
  (2 <= C)%nat -> (0 < B)%nat -> (0 < H)%nat -> (0 < W)%nat ->
  0 <= mu self -> 0 <= beta self ->
  (forall b y x, (b < B)%nat -> (y < H)%nat -> (x < W)%nat ->
                 0 <= at4 y_pred b y x 1%nat) ->
  classification_loss losses self y_true y_pred = Ok base ->
  exists regularized,
    classification_loss_regularized losses self y_true y_pred = Ok regularized
    /\ Forall2 Qle base regularized.
Proof.
  intros Ht Hp HC HB HH HW Hmu Hbeta Hnn Hbase.
  destruct (N_loss_value y_true y_pred B H W C Ht Hp HC HB HH HW)
    as (n & HN & Hn).
  destruct (inter_loss_nonneg y_pred B H W C Hp HC HB HH HW Hnn)
    as (i & HI & Hi).
  unfold classification_loss in Hbase.
  unfold classification_loss_regularized. cbv zeta in *.
  rewrite Hbase, HN, HI. cbn [bind].
  eexists. split; [reflexivity|]. now apply penalty_raises.
Qed.

Lemma classification_loss_regularized_not_smaller_witness :
  exists regularized,
    classification_loss_regularized sample_losses
      (mkDotNetLosses 2 3 2 true 1 1 2) one_spot_onehot half_everywhere
    = Ok regularized
    /\ Forall2 Qle [2 * (1 # 4); 2 * (1 # 4)] regularized.
Proof.
  apply (classification_loss_regularized_not_smaller sample_losses
           (mkDotNetLosses 2 3 2 true 1 1 2) one_spot_onehot half_everywhere
           1 1 2 2); first [reflexivity | lia | discriminate].
Defined.

(** X16.  On an empty pair of one shape (batch, height or width zero)
    both penalties are not numbers, whatever [mu] and [beta] are.  So
    when [classification_loss] returns a loss without any element,
    [classification_loss_regularized] returns it unchanged, and when it
    returns one with elements, the regularised loss is not finite. *)
Theorem classification_loss_regularized_on_empty
  (losses : deepcell_losses) (self : DotNetLosses)
  (y_true y_pred : tensor4) (B H W C : nat) (base : list Q) :
  shape4 y_true = (B, H, W, C) -> shape4 y_pred = (B, H, W, C) ->
  (2 <= C)%nat -> (B * H * W = 0)%nat ->
  classification_loss losses self y_true y_pred = Ok base ->
  classification_loss_regularized losses self y_true y_pred
  = match base with
    | [] => Ok []
    | _ :: _ => Err NonFinite
    end.
Proof.
  intros Ht Hp HC Hz Hbase.
  unfold classification_loss in Hbase.
  unfold classification_loss_regularized. cbv zeta in *.
  rewrite Hbase. cbn [bind].
  rewrite (N_loss_empty y_true y_pred B H W C Ht Hp HC Hz).
  rewrite (inter_loss_eq y_pred B H W C Hp HC), Hz, fdiv_zero.
  reflexivity.
Qed.

Lemma classification_loss_regularized_on_empty_witness :
  classification_loss_regularized sample_losses
    (mkDotNetLosses 2 3 2 true 1 0 0) empty_batch empty_batch
  = Ok [].
Proof.
  apply (classification_loss_regularized_on_empty sample_losses
           (mkDotNetLosses 2 3 2 true 1 0 0) empty_batch empty_batch
           0 1 1 2 []); first [reflexivity | lia].
Defined.

(** ** Bounds on the penalty terms of probabilities *)

Lemma Q_of_nat_S (n : nat) : Q_of_nat (S n) == Q_of_nat n + 1.
Proof.
  unfold Q_of_nat. rewrite Nat2Z.inj_succ. unfold Z.succ.
  now rewrite inject_Z_plus.
Qed.

Lemma Q_of_nat_le (n m : nat) : (n <= m)%nat -> Q_of_nat n <= Q_of_nat m.
Proof.
  intro H. unfold Q_of_nat. rewrite <- Zle_Qle. lia.
Qed.

Lemma K_sum_le_length (l : list Q) :
  Forall (fun v => v <= 1) l -> K_sum l <= Q_of_nat (length l).
Proof.
  induction 1 as [|x l Hx _ IH]; cbn [K_sum fold_right length].
  - apply Qle_refl.
  - rewrite Q_of_nat_S. fold (K_sum l). lra.
Qed.

Lemma length_flat_map_const {A B : Type} (f : A -> list B) (l : list A)
  (n : nat) :
  (forall a, length (f a) = n) -> length (flat_map f l) = (length l * n)%nat.
Proof.
  intro H. induction l as [|a l IH]; simpl; [reflexivity|].
  now rewrite length_app, H, IH.
Qed.

Lemma length_all_indices (B H W : nat) :
  length (all_indices (B, H, W)) = (B * H * W)%nat.
Proof.
  unfold all_indices.
  rewrite (length_flat_map_const _ _ (H * W)), length_seq; [lia|].
  intro b. rewrite (length_flat_map_const _ _ W), length_seq; [lia|].
  intro y. now rewrite length_map, length_seq.
Qed.

Lemma Qdiv_le_1 (a b : Q) : 0 < b -> a <= b -> a / b <= 1.
Proof.
  intros Hb Hab. apply Qle_shift_div_r; [assumption | lra].
Qed.

Lemma spatial_mean_bounds (t : tensor4) (B H W C b : nat) :
  shape4 t = (B, H, W, C) -> (0 < H)%nat -> (0 < W)%nat -> (b < B)%nat ->
  (forall b y x, (b < B)%nat -> (y < H)%nat -> (x < W)%nat ->
                 0 <= at4 t b y x 1%nat <= 1) ->
  0 <= spatial_mean t b <= 1.
Proof.
  intros Hs HH HW Hb Hin. unfold spatial_mean. rewrite Hs.
  assert (Hn : 0 < Q_of_nat (H * W)).
  { apply Q_of_nat_pos. now apply Nat.mul_pos_pos. }
  assert (Hall : forall v,
            In v (flat_map (fun y => map (fun x => at4 t b y x 1%nat) (seq 0 W))
                           (seq 0 H)) -> 0 <= v <= 1).
  { intros v Hv. apply in_flat_map in Hv. destruct Hv as (y & Hy & Hv).
    apply in_map_iff in Hv. destruct Hv as (x & <- & Hx).
    apply in_seq in Hy, Hx. apply Hin; lia. }
  assert (Hlen : length (flat_map (fun y =>
                   map (fun x => at4 t b y x 1%nat) (seq 0 W)) (seq 0 H))
                 = (H * W)%nat).
  { rewrite (length_flat_map_const _ _ W), length_seq; [lia|].
    intro y. now rewrite length_map, length_seq. }
  split.
  - apply Qdiv_nonneg; [|assumption].
    apply K_sum_nonneg, Forall_forall. intros v Hv. now apply Hall.
  - apply Qdiv_le_1; [assumption|]. rewrite <- Hlen.
    apply K_sum_le_length, Forall_forall. intros v Hv. now apply Hall.
Qed.

(** X17.  On a non-empty pair of one shape whose spot-class values all
    lie between 0 and 1 (a one-hot ground truth, predicted
    probabilities), the count-mismatch term lies between 0 and 1. *)
Theorem N_loss_at_most_one (y_true y_pred : tensor4) (B H W C : nat) :
  shape4 y_true = (B, H, W, C) -> shape4 y_pred = (B, H, W, C) ->
  (2 <= C)%nat -> (0 < B)%nat -> (0 < H)%nat -> (0 < W)%nat ->
  (forall b y x, (b < B)%nat -> (y < H)%nat -> (x < W)%nat ->
                 0 <= at4 y_true b y x 1%nat <= 1) ->
  (forall b y x, (b < B)%nat -> (y < H)%nat -> (x < W)%nat ->
                 0 <= at4 y_pred b y x 1%nat <= 1) ->
  exists v, N_loss y_true y_pred = Ok v /\ 0 <= v <= 1.
Proof.
  intros Ht Hp HC HB HH HW Htrue Hpred.
  rewrite (N_loss_eq y_true y_pred B H W C) by assumption.
  rewrite K_mean_ok.
  2:{ intro E. apply map_eq_nil in E. now apply (seq_nonempty B HB). }
  eexists. split; [reflexivity|].
  pose proof (Q_of_nat_pos B HB) as HQ.
  assert (Hlen : length (map (fun b =>
                   (spatial_mean y_pred b - spatial_mean y_true b)
                   * (spatial_mean y_pred b - spatial_mean y_true b))
                 (seq 0 B)) = B) by now rewrite length_map, length_seq.
  split.
  - apply Qdiv_nonneg; [|now rewrite Hlen].
    apply K_sum_nonneg, Forall_map, Forall_forall.
    intros b _. apply square_nonneg.
  - apply Qdiv_le_1; [now rewrite Hlen|].
    apply K_sum_le_length, Forall_map, Forall_forall.
    intros b Hb. apply in_seq in Hb.
    pose proof (spatial_mean_bounds y_pred B H W C b Hp HH HW
                  ltac:(lia) Hpred).
    pose proof (spatial_mean_bounds y_true B H W C b Ht HH HW
                  ltac:(lia) Htrue).
    nra.
Qed.

Lemma N_loss_at_most_one_witness :
  exists v, N_loss one_spot_onehot zero_prediction = Ok v /\ 0 <= v <= 1.
Proof.
  apply (N_loss_at_most_one one_spot_onehot zero_prediction 1 1 2 2);
    try first [reflexivity | lia].
  - intros b y x _ _ _. cbn [at4 one_spot_onehot].
    destruct (Nat.eqb x 1); split; discriminate.
  - intros b y x _ _ _. split; discriminate.
Defined.

Lemma products_at_most_count (l : list index3) (f : index3 -> Q) :
  (forall i, In i l -> f i <= 1) -> K_sum (map f l) <= Q_of_nat (length l).
Proof.
  intro H. rewrite <- (length_map f l).
  apply K_sum_le_length, Forall_map, Forall_forall. exact H.
Qed.

Lemma product_le_1 (a b : Q) : 0 <= a <= 1 -> 0 <= b <= 1 -> a * b <= 1.
Proof. intros Ha Hb. nra. Qed.

(** X18.  On a non-empty prediction whose spot-class values all lie
    between 0 and 1, the interaction term lies between 0 and 2: a pixel
    has at most one neighbour below and one to its right. *)
Theorem inter_loss_at_most_two (y_pred : tensor4) (B H W C : nat) :
  shape4 y_pred = (B, H, W, C) -> (2 <= C)%nat ->
  (0 < B)%nat -> (0 < H)%nat -> (0 < W)%nat ->
  (forall b y x, (b < B)%nat -> (y < H)%nat -> (x < W)%nat ->
                 0 <= at4 y_pred b y x 1%nat <= 1) ->
  exists v, inter_loss y_pred = Ok v /\ 0 <= v <= 2.
Proof.
  intros Hs HC HB HH HW Hin.
  assert (Hnn : forall b y x, (b < B)%nat -> (y < H)%nat -> (x < W)%nat ->
                              0 <= at4 y_pred b y x 1%nat).
  { intros b y x Hb Hy Hx. now apply Hin. }
  destruct (inter_loss_nonneg y_pred B H W C Hs HC HB HH HW Hnn)
    as (v & Hv & Hv0).
  destruct (inter_loss_value y_pred B H W C Hs HC HB HH HW) as (v' & Hv' & E).
  rewrite Hv in Hv'. injection Hv' as <-.
  exists v. split; [assumption|]. split; [assumption|].
  pose proof (normalizer_pos B H W HB HH HW) as Hn.
  rewrite E. apply Qle_shift_div_r; [assumption|].
  unfold neighbour_products. rewrite Hs.
  assert (Hv1 : K_sum (map (fun '(b, y, x) =>
                  at4 y_pred b (y + 1)%nat x 1%nat * at4 y_pred b y x 1%nat)
                (all_indices (B, H - 1, W)%nat)) <= Q_of_nat (B * H * W)).
  { apply Qle_trans with (Q_of_nat (B * (H - 1) * W)).
    - rewrite <- length_all_indices. apply products_at_most_count.
      intros [[b y] x] Hi. apply in_all_indices in Hi.
      destruct Hi as (Hb & Hy & Hx). apply product_le_1; apply Hin; lia.
    - apply Q_of_nat_le. nia. }
  assert (Hh1 : K_sum (map (fun '(b, y, x) =>
                  at4 y_pred b y (x + 1)%nat 1%nat * at4 y_pred b y x 1%nat)
                (all_indices (B, H, W - 1)%nat)) <= Q_of_nat (B * H * W)).
  { apply Qle_trans with (Q_of_nat (B * H * (W - 1))).
    - rewrite <- length_all_indices. apply products_at_most_count.
      intros [[b y] x] Hi. apply in_all_indices in Hi.
      destruct Hi as (Hb & Hy & Hx). apply product_le_1; apply Hin; lia.
    - apply Q_of_nat_le. nia. }
  lra.
Qed.

Lemma inter_loss_at_most_two_witness :
  exists v, inter_loss half_everywhere = Ok v /\ 0 <= v <= 2.
Proof.
  apply (inter_loss_at_most_two half_everywhere 1 1 2 2);
    try first [reflexivity | lia].
  intros b y x _ _ _. split; discriminate.
Defined.
